(** * Spanish flashcards: audio cache, playback engine and export pipeline

    A shallow embedding of the TypeScript sources of the flashcard player:

    - [crypto.createHash('sha256')] as used by [generateCacheKey]
      (main/ttsHandler.ts and main/audioExporter.ts),
    - the duration heuristics of renderer/utils/timeUtils.ts,
    - the vocabulary parser of renderer/services/FileParser.ts,
    - the disk cache and [synthesizeSpeech] of main/ttsHandler.ts,
    - the transport state machine of renderer/services/PlaybackEngine.ts,
    - [exportAudioFile] of main/audioExporter.ts.

    Conventions of the model.
    - A JavaScript string is modelled by the [string] of its UTF-8 bytes
      (this is what [hash.update] digests).  White space is the ASCII
      white space.
    - A JavaScript number that measures time is a rational [Q]; the
      rounding of IEEE doubles is not modelled.  [Infinity], which the
      engine uses as default window end, is a constructor of [bound].
    - Code that throws is modelled in a state-and-exception monad: the
      state reached when the exception is raised is kept, as in
      JavaScript, where nothing is rolled back.
    - An [async] function runs atomically between two [await]s; the
      steps between awaits are separate functions wherever a property
      depends on how calls interleave. *)

From Stdlib Require Import ZArith QArith Qround Lqa String Ascii List Sorted Lia.
From stdpp Require Import base gmap strings list fin_maps pretty.

Local Open Scope Z_scope.
Local Open Scope string_scope.

(* ===================================================================== *)
(** * Part I: definitions                                                 *)
(* ===================================================================== *)

(** ** SHA-256, the digest behind [createHash('sha256')] (FIPS 180-4) *)

Module Sha256.

Definition w32 (x : Z) : Z := x mod 2 ^ 32.
Definition add32 (x y : Z) : Z := w32 (x + y).
Definition rotr (n x : Z) : Z :=
    w32 (Z.lor (Z.shiftr x n) (Z.shiftl x (32 - n))).
Definition not32 (x : Z) : Z := Z.lxor x 0xffffffff.

  (** The round constants are the first 32 bits of the fractional parts
      of the cube roots of the first 64 primes, the initial hash value
      those of the square roots of the first 8 primes. *)
Definition isPrime (n : nat) : bool :=
    (2 <=? n)%nat && forallb (fun d => negb (n mod d =? 0)%nat) (seq 2 (n - 2)).

Definition primes (count : nat) : list Z :=
    List.map Z.of_nat (firstn count (List.filter isPrime (seq 2 310))).

  (** The integer part of the cube root, one bit after the other. *)
Definition cubeRoot (n : Z) : Z :=
    fold_left (fun r b => let c := r + 2 ^ Z.of_nat b in
                          if (c * c * c <=? n)%Z then c else r)
              (rev (seq 0 40)) 0.

Definition K : list Z :=
    Eval vm_compute in
      List.map (fun p => w32 (cubeRoot (p * 2 ^ 96))) (primes 64).

Definition H0 : list Z :=
    Eval vm_compute in
      List.map (fun p => w32 (Z.sqrt (p * 2 ^ 64))) (primes 8).

Definition bytes_of_string (s : string) : list Z :=
    List.map (fun c => Z.of_N (N_of_ascii c)) (list_ascii_of_string s).

  (** The message followed by the bit 1, zero bytes up to 56 modulo 64, and
      the length in bits as a 64-bit big-endian integer. *)
Definition be_bytes (n : nat) (x : Z) : list Z :=
    List.map (fun i => Z.land (Z.shiftr x (8 * Z.of_nat i)) 0xff) (rev (seq 0 n)).

Definition pad (msg : list Z) : list Z :=
    let len := Z.of_nat (List.length msg) in
    let zeros := Z.to_nat ((55 - len) mod 64) in
    msg ++ [0x80] ++ repeat 0 zeros ++ be_bytes 8 (8 * len).

Fixpoint words (fuel : nat) (bs : list Z) : list Z :=
    match fuel, bs with
    | S fuel', b0 :: b1 :: b2 :: b3 :: rest =>
        (Z.shiftl b0 24 + Z.shiftl b1 16 + Z.shiftl b2 8 + b3) :: words fuel' rest
    | _, _ => []
    end.

Fixpoint blocks (fuel : nat) (ws : list Z) : list (list Z) :=
    match fuel, ws with
    | S fuel', _ :: _ => firstn 16 ws :: blocks fuel' (skipn 16 ws)
    | _, _ => []
    end.

Definition sigma0 (x : Z) : Z :=
    Z.lxor (Z.lxor (rotr 7 x) (rotr 18 x)) (Z.shiftr x 3).
Definition sigma1 (x : Z) : Z :=
    Z.lxor (Z.lxor (rotr 17 x) (rotr 19 x)) (Z.shiftr x 10).
Definition Sigma0 (x : Z) : Z :=
    Z.lxor (Z.lxor (rotr 2 x) (rotr 13 x)) (rotr 22 x).
Definition Sigma1 (x : Z) : Z :=
    Z.lxor (Z.lxor (rotr 6 x) (rotr 11 x)) (rotr 25 x).
Definition Ch (e f g : Z) : Z := Z.lxor (Z.land e f) (Z.land (not32 e) g).
Definition Maj (a b c : Z) : Z :=
    Z.lxor (Z.lxor (Z.land a b) (Z.land a c)) (Z.land b c).

  (** The message schedule, most recent word first. *)
Fixpoint schedule (n : nat) (rev_w : list Z) : list Z :=
    match n with
    | O => rev_w
    | S n' =>
        let at_ i := nth i rev_w 0 in
        let w := add32 (add32 (at_ 15%nat) (sigma0 (at_ 14%nat)))
                       (add32 (at_ 6%nat) (sigma1 (at_ 1%nat))) in
        schedule n' (w :: rev_w)
    end.

Definition round (st : list Z) (kw : Z * Z) : list Z :=
    match st with
    | [a; b; c; d; e; f; g; h] =>
        let t1 := add32 (add32 (add32 h (Sigma1 e)) (add32 (Ch e f g) (fst kw))) (snd kw) in
        let t2 := add32 (Sigma0 a) (Maj a b c) in
        [add32 t1 t2; a; b; c; add32 d t1; e; f; g]
    | _ => st
    end.

Definition compress (h : list Z) (block : list Z) : list Z :=
    let w := rev (schedule 48 (rev block)) in
    let st := fold_left round (combine K w) h in
    List.map (fun p => add32 (fst p) (snd p)) (combine h st).

Definition hex_digit (x : Z) : ascii :=
    nth (Z.to_nat x) (list_ascii_of_string "0123456789abcdef") "0"%char.

Definition hex_word (x : Z) : string :=
    string_of_list_ascii
      (List.map (fun i => hex_digit (Z.land (Z.shiftr x (4 * Z.of_nat i)) 0xf))
                (rev (seq 0 8))).

  (** [createHash('sha256').update(s).digest('hex')] *)
Definition sha256_hex (s : string) : string :=
    let bs := pad (bytes_of_string s) in
    let n := List.length bs in
    let h := fold_left compress (blocks n (words n bs)) H0 in
    String.concat "" (List.map hex_word h).

End Sha256.

(** ** Strings as the sources use them *)

Module Str.

  (** ASCII white space: tab, line feed, vertical tab, form feed, carriage
      return and space. *)
Definition isSpace (c : ascii) : bool :=
    let n := N_of_ascii c in
    ((9 <=? n)%N && (n <=? 13)%N) || (n =? 32)%N.

Definition isLineTerminator (c : ascii) : bool :=
    let n := N_of_ascii c in (n =? 10)%N || (n =? 13)%N.

Fixpoint trimStart (s : string) : string :=
    match s with
    | String c s' => if isSpace c then trimStart s' else s
    | EmptyString => EmptyString
    end.

Definition rev (s : string) : string :=
    string_of_list_ascii (List.rev (list_ascii_of_string s)).

  (** [s.trim()] *)
Definition trim (s : string) : string := rev (trimStart (rev (trimStart s))).

  (** [s.split(sep)] for a one-character separator: never the empty list. *)
Fixpoint splitChar (sep : ascii) (cur : string) (s : string) : list string :=
    match s with
    | EmptyString => [rev cur]
    | String c s' =>
        if Ascii.eqb c sep then rev cur :: splitChar sep EmptyString s'
        else splitChar sep (String c cur) s'
    end.

Definition newline : ascii := ascii_of_nat 10.

Definition splitLines (s : string) : list string := splitChar newline EmptyString s.

  (** [s.split(/\s+/)]: the fields between maximal runs of white space. *)
Fixpoint splitSpaces (cur : string) (inRun : bool) (s : string) : list string :=
    match s with
    | EmptyString => [rev cur]
    | String c s' =>
        if isSpace c then
          if inRun then splitSpaces EmptyString true s'
          else rev cur :: splitSpaces EmptyString true s'
        else splitSpaces (String c cur) false s'
    end.

Definition nonEmpty (s : string) : bool :=
    match s with EmptyString => false | _ => true end.

  (** [s.endsWith(suffix)] *)
Definition endsWith (s suffix : string) : bool :=
    String.prefix (rev suffix) (rev s).

Fixpoint contains (c : ascii) (s : string) : bool :=
    match s with
    | EmptyString => false
    | String d s' => Ascii.eqb c d || contains c s'
    end.

End Str.

(** ** Numbers *)

Module Num.

Local Open Scope Q_scope.

  (** [Math.max(a, b)] and [Math.min(a, b)] *)
Definition max (a b : Q) : Q := if Qle_bool a b then b else a.
Definition min (a b : Q) : Q := if Qle_bool a b then a else b.

  (** [a < b] and [a >= b] on numbers *)
Definition ltb (a b : Q) : bool := negb (Qle_bool b a).
Definition geb (a b : Q) : bool := Qle_bool b a.

  (** A number that may be [Infinity]. *)
Inductive bound : Type :=
  | Finite (q : Q)
  | Infinity.

  (** [x >= b] and [x < b] where [b] may be [Infinity] *)
Definition geb_bound (x : Q) (b : bound) : bool :=
    match b with Finite q => geb x q | Infinity => false end.
Definition ltb_bound (x : Q) (b : bound) : bool :=
    match b with Finite q => ltb x q | Infinity => true end.

Definition ofNat (n : nat) : Q := inject_Z (Z.of_nat n).

Definition twoDigits (n : Z) : string :=
    if (n <? 10)%Z then "0" ++ pretty n else pretty n.

  (** [x.toFixed(2)] for a number that is not negative: the closest
      multiple of 1/100, the larger one on a tie. *)
Definition toFixed2 (x : Q) : string :=
    let n := Qfloor (x * 100 + (1 # 2)) in
    pretty (n / 100)%Z ++ "." ++ twoDigits (n mod 100)%Z.

End Num.

(** ** renderer/utils/timeUtils.ts *)

Inductive Lang : Type := en | es.

Record FlashcardEntry : Type := mkEntry {
  id : nat;
  englishWord : string;
  spanishWord : string;
  spanishSentence : string;
  estimatedDuration : Q;
  cumulativeStartTime : Q
}.

Module TimeUtils.

Local Open Scope Q_scope.

Definition ENGLISH_WPM : Q := 150.
Definition SPANISH_WPM : Q := 180.

Definition PAUSE_AFTER_ENGLISH : Q := 3 # 2.
Definition PAUSE_AFTER_SPANISH_WORD : Q := 8 # 10.
Definition PAUSE_BETWEEN_ENTRIES : Q := 1.

Definition estimateTextDuration (text : string) (lang : Lang) (rate : Q) : Q :=
    let words :=
      List.length (List.filter Str.nonEmpty (Str.splitSpaces EmptyString false text)) in
    let wpm := match lang with es => SPANISH_WPM | en => ENGLISH_WPM end in
    let baseSeconds := Num.max (1 # 2) ((Num.ofNat words / wpm) * 60) in
    baseSeconds / rate.

Definition estimateEntryDuration (entry : FlashcardEntry) (rate : Q) : Q :=
    let englishDuration := estimateTextDuration (englishWord entry) en rate in
    let spanishWordDuration := estimateTextDuration (spanishWord entry) es rate in
    let sentenceDuration := estimateTextDuration (spanishSentence entry) es rate in
    englishDuration +
    (PAUSE_AFTER_ENGLISH / rate) +
    spanishWordDuration +
    (PAUSE_AFTER_SPANISH_WORD / rate) +
    sentenceDuration +
    (PAUSE_BETWEEN_ENTRIES / rate).

  (** [x % 60] on numbers: the remainder has the sign of [x]. *)
Definition remainder60 (x : Q) : Q :=
    x - 60 * inject_Z (Z.quot (Qnum x) (60 * Z.pos (Qden x))).

  (** [s.padStart(2, '0')] *)
Definition padStart2 (s : string) : string :=
    match String.length s with
    | O => "00"
    | S O => "0" ++ s
    | _ => s
    end.

Definition formatTime (seconds : Q) : string :=
    let mins := Qfloor (seconds / 60) in
    let secs := Qfloor (remainder60 seconds) in
    pretty mins ++ ":" ++ padStart2 (pretty secs).

  (** The [for] loop that runs from the last entry down; [rev_entries] are
      the entries [i], [i-1], ..., [0]. *)
Fixpoint findEntryFrom (rev_entries : list FlashcardEntry) (time : Q) : nat :=
    match rev_entries with
    | [] => 0
    | e :: before =>
        if Qle_bool (cumulativeStartTime e) time then List.length before
        else findEntryFrom before time
    end.

Definition findEntryAtTime (entries : list FlashcardEntry) (time : Q) : nat :=
    findEntryFrom (List.rev entries) time.

Definition getEntriesInWindow (entries : list FlashcardEntry) (startTime endTime : Q)
    : list FlashcardEntry :=
    List.filter
      (fun entry =>
         let entryEnd := cumulativeStartTime entry + estimatedDuration entry in
         Num.ltb (cumulativeStartTime entry) endTime && Num.ltb startTime entryEnd)
      entries.

End TimeUtils.

(** ** renderer/services/FileParser.ts *)

Module FileParser.

  (** *** The fragment of regular expressions [ENTRY_REGEX] is written in:
      a sequence of quantified character classes, some of them capture
      groups, matched by backtracking between [^] and [$]. *)

Inductive cls : Type :=
  | Dot                 (* [.]  : anything but a line terminator *)
  | Space               (* [\s] *)
  | Lit (c : ascii).

Inductive quant : Type :=
  | One                 (* no quantifier *)
  | StarGreedy          (* [*]  *)
  | PlusGreedy          (* [+]  *)
  | PlusLazy.           (* [+?] *)

Record item : Type := mkItem { icls : cls; iquant : quant; igroup : bool }.

Definition inCls (k : cls) (c : ascii) : bool :=
    match k with
    | Dot => negb (Str.isLineTerminator c)
    | Space => Str.isSpace c
    | Lit d => Ascii.eqb c d
    end.

Section Repeat.
Context {R : Type} (k : cls) (cont : string -> string -> option R).

    (** [cont taken rest] runs the rest of the pattern on [rest]; [taken]
        is what this item consumed, last character first. *)

    (** Greedy: one more character is tried before the continuation. *)
Fixpoint greedy (atLeastOne : bool) (taken : string) (s : string) : option R :=
      let stop := if atLeastOne then None else cont taken s in
      match s with
      | String c s' =>
          if inCls k c then
            match greedy false (String c taken) s' with
            | Some r => Some r
            | None => stop
            end
          else stop
      | EmptyString => stop
      end.

    (** Lazy: the continuation is tried before one more character. *)
Fixpoint lazy (atLeastOne : bool) (taken : string) (s : string) : option R :=
      match (if atLeastOne then None else cont taken s) with
      | Some r => Some r
      | None =>
          match s with
          | String c s' =>
              if inCls k c then lazy false (String c taken) s' else None
          | EmptyString => None
          end
      end.

Definition once (s : string) : option R :=
      match s with
      | String c s' => if inCls k c then cont (String c EmptyString) s' else None
      | EmptyString => None
      end.
End Repeat.

  (** The captures of the groups, in the order of the groups. *)
Fixpoint matchSeq (items : list item) (s : string) : option (list string) :=
    match items with
    | [] => match s with EmptyString => Some [] | _ => None end
    | it :: rest =>
        let cont := fun taken s' =>
          match matchSeq rest s' with
          | Some caps => Some (if igroup it then Str.rev taken :: caps else caps)
          | None => None
          end in
        match iquant it with
        | One => once (icls it) cont s
        | StarGreedy => greedy (icls it) cont false EmptyString s
        | PlusGreedy => greedy (icls it) cont true EmptyString s
        | PlusLazy => lazy (icls it) cont true EmptyString s
        end
    end.

  (** [/^(.+?)\s*\|\s*(.+?)\s*-\s*(.+)$/] *)
Definition ENTRY_REGEX : list item :=
    [ mkItem Dot PlusLazy true;
      mkItem Space StarGreedy false;
      mkItem (Lit "|") One false;
      mkItem Space StarGreedy false;
      mkItem Dot PlusLazy true;
      mkItem Space StarGreedy false;
      mkItem (Lit "-") One false;
      mkItem Space StarGreedy false;
      mkItem Dot PlusGreedy true ].

Local Open Scope Q_scope.

  (** The body of the [for] loop over [lines], from index [i] on. *)
Fixpoint parseLines (playbackRate : Q) (lines : list string) (i : nat)
           (cumulativeTime : Q) : list FlashcardEntry :=
    match lines with
    | [] => []
    | l :: rest =>
        let line := Str.trim l in
        if negb (Str.nonEmpty line) then
          parseLines playbackRate rest (S i) cumulativeTime
        else
          match matchSeq ENTRY_REGEX line with
          | Some [m1; m2; m3] =>
              let entry :=
                {| id := i + 1;
                   englishWord := Str.trim m1;
                   spanishWord := Str.trim m2;
                   spanishSentence := Str.trim m3;
                   estimatedDuration := 0;
                   cumulativeStartTime := cumulativeTime |} in
              let d := TimeUtils.estimateEntryDuration entry playbackRate in
              let entry :=
                {| id := id entry;
                   englishWord := englishWord entry;
                   spanishWord := spanishWord entry;
                   spanishSentence := spanishSentence entry;
                   estimatedDuration := d;
                   cumulativeStartTime := cumulativeStartTime entry |} in
              entry :: parseLines playbackRate rest (S i) (cumulativeTime + d)
          | _ => parseLines playbackRate rest (S i) cumulativeTime
          end
    end.

Definition parseVocabularyFile (content : string) (playbackRate : Q)
    : list FlashcardEntry :=
    parseLines playbackRate (Str.splitLines (Str.trim content)) 0 0.

  (** The callback of [entries.map], with the [cumulativeTime] it closes
      over passed along. *)
Fixpoint recalculateFrom (playbackRate : Q) (entries : list FlashcardEntry)
           (cumulativeTime : Q) : list FlashcardEntry :=
    match entries with
    | [] => []
    | entry :: rest =>
        let d := TimeUtils.estimateEntryDuration entry playbackRate in
        let updatedEntry :=
          {| id := id entry;
             englishWord := englishWord entry;
             spanishWord := spanishWord entry;
             spanishSentence := spanishSentence entry;
             estimatedDuration := d;
             cumulativeStartTime := cumulativeTime |} in
        updatedEntry :: recalculateFrom playbackRate rest (cumulativeTime + d)
    end.

Definition recalculateDurations (entries : list FlashcardEntry) (playbackRate : Q)
    : list FlashcardEntry :=
    recalculateFrom playbackRate entries 0.

Definition getTotalDuration (entries : list FlashcardEntry) : Q :=
    match List.rev entries with
    | [] => 0
    | lastEntry :: _ => cumulativeStartTime lastEntry + estimatedDuration lastEntry
    end.

End FileParser.

(** ** State and exceptions

    [M S A] is a computation over a state [S] that returns an [A] or
    throws; a throw keeps the state it was raised in. *)

Inductive Res (A : Type) : Type :=
| Ok (a : A)
| Throw (message : string).
Arguments Ok {A} a.
Arguments Throw {A} message.

Definition M (S A : Type) : Type := S -> Res A * S.

#[global] Instance M_ret {S} : MRet (M S) := fun A a s => (Ok a, s).
#[global] Instance M_bind {S} : MBind (M S) := fun A B f m s =>
  match m s with
  | (Ok a, s') => f a s'
  | (Throw e, s') => (Throw e, s')
  end.

Definition throw {S A} (message : string) : M S A := fun s => (Throw message, s).
Definition get {S} : M S S := fun s => (Ok s, s).
Definition gets {S A} (f : S -> A) : M S A := fun s => (Ok (f s), s).
Definition modify {S} (f : S -> S) : M S unit := fun s => (Ok tt, f s).

(** [try { body } catch (error) { handler(error) }] *)
Definition tryCatch {S A} (body : M S A) (handler : string -> M S A) : M S A :=
  fun s =>
    match body s with
    | (Ok a, s') => (Ok a, s')
    | (Throw e, s') => handler e s'
    end.

(** [xs.forEach(f)] *)
Fixpoint forEach {S A} (f : A -> M S unit) (xs : list A) : M S unit :=
  match xs with
  | [] => mret tt
  | x :: rest => f x ;; forEach f rest
  end.

(** ** Buffers and base64 *)

Definition Buffer : Type := list Byte.byte.

Module Base64.

Local Open Scope N_scope.

Definition alphabet : list ascii :=
    list_ascii_of_string
      "ABCDEFGHIJKLMNOPQRSTUVWXYZabcdefghijklmnopqrstuvwxyz0123456789+/".

Definition digit (i : N) : ascii := nth (N.to_nat i) alphabet "A"%char.

  (** [buffer.toString('base64')] *)
Fixpoint encode (bs : Buffer) : string :=
    match bs with
    | [] => EmptyString
    | [a] =>
        let a := Byte.to_N a in
        String (digit (a / 4)) (String (digit (a mod 4 * 16)) "==")
    | [a; b] =>
        let a := Byte.to_N a in
        let b := Byte.to_N b in
        String (digit (a / 4))
          (String (digit (a mod 4 * 16 + b / 16))
             (String (digit (b mod 16 * 4)) "="))
    | a :: b :: c :: rest =>
        let a := Byte.to_N a in
        let b := Byte.to_N b in
        let c := Byte.to_N c in
        String (digit (a / 4))
          (String (digit (a mod 4 * 16 + b / 16))
             (String (digit (b mod 16 * 4 + c / 64))
                (String (digit (c mod 64)) (encode rest))))
    end.

Fixpoint index (c : ascii) (l : list ascii) (i : N) : option N :=
    match l with
    | [] => None
    | d :: l' => if Ascii.eqb c d then Some i else index c l' (i + 1)
    end.

Definition byte (n : N) : Byte.byte :=
    match Byte.of_N (n mod 256) with Some b => b | None => Byte.x00 end.

  (** [Buffer.from(s, 'base64')]: decoding stops at the first character
      outside the alphabet. *)
Fixpoint decode (s : string) : Buffer :=
    match s with
    | String c0 (String c1 rest) =>
        match index c0 alphabet 0, index c1 alphabet 0 with
        | Some x0, Some x1 =>
            byte (x0 * 4 + x1 / 16) ::
            match rest with
            | String c2 rest2 =>
                match index c2 alphabet 0 with
                | Some x2 =>
                    byte (x1 mod 16 * 16 + x2 / 4) ::
                    match rest2 with
                    | String c3 rest3 =>
                        match index c3 alphabet 0 with
                        | Some x3 => byte (x2 mod 4 * 64 + x3) :: decode rest3
                        | None => []
                        end
                    | EmptyString => []
                    end
                | None => []
                end
            | EmptyString => []
            end
        | _, _ => []
        end
    | _ => []
    end.

End Base64.

(** ** main/ttsHandler.ts: the disk cache and the synthesis service *)

Module TtsHandler.

Record CacheEntry : Type := mkCacheEntry {
    text : string;
    voiceId : string;
    languageCode : string;
    timestamp : Z;
    fileSize : nat;
    lastAccessed : Z
  }.

Record CacheIndex : Type := mkCacheIndex {
    version : string;
    entries : gmap string CacheEntry
  }.

  (** One call of [client.textToSpeech.convert(voice, {text, modelId, ...})] *)
Record Request : Type := mkRequest {
    reqVoice : string;
    reqText : string;
    reqModel : string
  }.

  (** What the gateway answers: [convert] rejects, or it returns a stream
      that yields chunks and then ends or throws. *)
Inductive Response : Type :=
  | ConvertError (message : string)
  | Stream (chunks : list Buffer) (failure : option string).

  (** What cache-index.json holds: the JSON of an index, or text that
      [JSON.parse] rejects. *)
Inductive IndexFile : Type :=
  | Json (index : CacheIndex)
  | Corrupt.

  (** The module variables and the part of the world the module acts on. *)
Record World : Type := mkWorld {
    client : option string;         (* [let client]: the key it was made with *)
    apiKey : option string;         (* [let apiKey] *)
    dirExists : bool;               (* [CACHE_DIR] exists *)
    files : gmap string Buffer;     (* files of [CACHE_DIR] by name, the index apart *)
    indexFile : option IndexFile;   (* cache-index.json, when it exists *)
    locked : gset string;           (* names the file system refuses to unlink *)
    cacheIndex : CacheIndex;        (* [let cacheIndex] *)
    clock : Z;                      (* what [Date.now()] returns *)
    requests : list Request         (* the gateway calls made so far *)
  }.

Definition set_dirExists (b : bool) (w : World) : World :=
    mkWorld (client w) (apiKey w) b (files w) (indexFile w) (locked w) (cacheIndex w)
            (clock w) (requests w).
Definition set_files (f : gmap string Buffer) (w : World) : World :=
    mkWorld (client w) (apiKey w) (dirExists w) f (indexFile w) (locked w) (cacheIndex w)
            (clock w) (requests w).
Definition set_client (c : option string) (w : World) : World :=
    mkWorld c (apiKey w) (dirExists w) (files w) (indexFile w) (locked w)
            (cacheIndex w) (clock w) (requests w).
Definition set_apiKey (k : option string) (w : World) : World :=
    mkWorld (client w) k (dirExists w) (files w) (indexFile w) (locked w)
            (cacheIndex w) (clock w) (requests w).
Definition set_indexFile (i : option IndexFile) (w : World) : World :=
    mkWorld (client w) (apiKey w) (dirExists w) (files w) i (locked w) (cacheIndex w)
            (clock w) (requests w).
Definition set_cacheIndex (i : CacheIndex) (w : World) : World :=
    mkWorld (client w) (apiKey w) (dirExists w) (files w) (indexFile w) (locked w) i
            (clock w) (requests w).
Definition set_clock (t : Z) (w : World) : World :=
    mkWorld (client w) (apiKey w) (dirExists w) (files w) (indexFile w) (locked w)
            (cacheIndex w) t (requests w).
Definition set_requests (r : list Request) (w : World) : World :=
    mkWorld (client w) (apiKey w) (dirExists w) (files w) (indexFile w) (locked w)
            (cacheIndex w) (clock w) r.

Definition emptyIndex : CacheIndex := mkCacheIndex "1.0" ∅.

Definition VOICE_spanish : string := "jtfxplhZxnBzQICVwoQn".
Definition VOICE_english : string := "EXAVITQu4vr4xnSDxMaL".

Definition ensureCacheDir : M World unit :=
    modify (fun w => if dirExists w then w else set_dirExists true w).

  (** [writeFileSync] into [CACHE_DIR] *)
Definition writeFileSync (name : string) (data : Buffer) : M World unit :=
    w ← get;
    if dirExists w then modify (set_files (<[name := data]> (files w)))
    else throw "ENOENT: no such file or directory".

  (** The write is inside [try]/[catch]: a failure is logged only. *)
Definition saveCacheIndex : M World unit :=
    tryCatch
      (w ← get;
       if dirExists w then modify (set_indexFile (Some (Json (cacheIndex w))))
       else throw "ENOENT: no such file or directory")
      (fun _ => mret tt).


Definition setApiKey (key : string) : M World bool :=
    if negb (Str.nonEmpty key) || negb (Str.nonEmpty (Str.trim key)) then
      modify (set_apiKey None) ;;
      modify (set_client None) ;;
      mret false
    else
      modify (set_apiKey (Some (Str.trim key))) ;;
      modify (set_client (Some (Str.trim key))) ;;
      mret true.

Definition getApiKey : M World (option string) := gets apiKey.



  (** The text that is hashed: [`${text}|${voiceId}|${languageCode}`] *)
Definition cacheKeyInput (text voiceId languageCode : string) : string :=
    text ++ "|" ++ voiceId ++ "|" ++ languageCode.

Definition generateCacheKey (text voiceId languageCode : string) : string :=
    Sha256.sha256_hex (cacheKeyInput text voiceId languageCode).

Definition dataUrl (audioBuffer : Buffer) : string :=
    "data:audio/mpeg;base64," ++ Base64.encode audioBuffer.

Definition selectVoice (voiceId : option string) (language : Lang) : string :=
    match voiceId with
    | Some v => if Str.nonEmpty v then v
                else match language with es => VOICE_spanish | en => VOICE_english end
    | None => match language with es => VOICE_spanish | en => VOICE_english end
    end.

Definition localeOf (language : Lang) : string :=
    match language with es => "es-ES" | en => "en-US" end.

  (** What a call remembers across its [await]. *)
Record Pending : Type := mkPending {
    pText : string;
    pVoice : string;
    pLanguageCode : string;
    pKey : string;
    pPath : string
  }.

Inductive Started : Type :=
  | Returned (url : string)
  | Awaiting (p : Pending).

  (** [synthesizeSpeech] up to its first [await]: the cache check, and on a
      miss the call of the gateway. *)
Definition synthesizeStart (text : string) (language : Lang)
             (voiceId : option string) : M World Started :=
    w ← get;
    if negb (bool_decide (is_Some (client w))) then
      throw "ElevenLabs API key not configured" else
    ensureCacheDir ;;
    let selectedVoiceId := selectVoice voiceId language in
    let languageCode := localeOf language in
    let cacheKey := generateCacheKey text selectedVoiceId languageCode in
    let cachePath := cacheKey ++ ".mp3" in
    w ← get;
    match files w !! cachePath with
    | Some audioBuffer =>
        match entries (cacheIndex w) !! cacheKey with
        | Some e =>
            let e' := mkCacheEntry (TtsHandler.text e) (TtsHandler.voiceId e)
                        (TtsHandler.languageCode e) (timestamp e) (fileSize e)
                        (clock w) in
            modify (set_cacheIndex
                      (mkCacheIndex (version (cacheIndex w))
                                    (<[cacheKey := e']> (entries (cacheIndex w))))) ;;
            saveCacheIndex
        | None => mret tt
        end ;;
        mret (Returned (dataUrl audioBuffer))
    | None =>
        modify (fun w =>
          set_requests
            (requests w ++ [mkRequest selectedVoiceId text "eleven_multilingual_v2"]) w) ;;
        mret (Awaiting (mkPending text selectedVoiceId languageCode cacheKey cachePath))
    end.

  (** [synthesizeSpeech] from the gateway's answer on: nothing is written
      before the last chunk has arrived. *)
Definition synthesizeFinish (p : Pending) (r : Response) : M World string :=
    match r with
    | ConvertError message => throw message
    | Stream _ (Some message) => throw message
    | Stream chunks None =>
        let audioBuffer : Buffer := List.concat chunks in
        writeFileSync (pPath p) audioBuffer ;;
        w ← get;
        modify (set_cacheIndex
                  (mkCacheIndex (version (cacheIndex w))
                     (<[pKey p := mkCacheEntry (pText p) (pVoice p) (pLanguageCode p)
                                    (clock w) (List.length audioBuffer) (clock w)]>
                        (entries (cacheIndex w))))) ;;
        saveCacheIndex ;;
        mret (dataUrl audioBuffer)
    end.

  (** A call that nothing interleaves with; [gateway] answers the request. *)
Definition synthesizeSpeech (gateway : Request -> Response) (text : string)
             (language : Lang) (voiceId : option string) : M World string :=
    started ← synthesizeStart text language voiceId;
    match started with
    | Returned url => mret url
    | Awaiting p =>
        synthesizeFinish p
          (gateway (mkRequest (pVoice p) (pText p) "eleven_multilingual_v2"))
    end.

  (** *** Calls that overlap: every [await] is a point where another call
      may run. *)

Inductive Action : Type :=
  | Invoke (task : nat) (text : string) (language : Lang) (voiceId : option string)
  | Respond (task : nat) (r : Response)
  | Tick (elapsed : Z).

Record System : Type := mkSystem {
    world : World;
    pending : gmap nat Pending;        (* calls suspended on the gateway *)
    settled : gmap nat (Res string)    (* calls that returned or threw *)
  }.

Definition step (s : System) (a : Action) : System :=
    match a with
    | Invoke task text language voiceId =>
        match synthesizeStart text language voiceId (world s) with
        | (Ok (Returned url), w) => mkSystem w (pending s) (<[task := Ok url]> (settled s))
        | (Ok (Awaiting p), w) => mkSystem w (<[task := p]> (pending s)) (settled s)
        | (Throw e, w) => mkSystem w (pending s) (<[task := Throw e]> (settled s))
        end
    | Respond task r =>
        match pending s !! task with
        | Some p =>
            let '(res, w) := synthesizeFinish p r (world s) in
            mkSystem w (delete task (pending s)) (<[task := res]> (settled s))
        | None => s
        end
    | Tick elapsed =>
        mkSystem (set_clock (clock (world s) + elapsed) (world s)) (pending s) (settled s)
    end.

Definition run (s : System) (actions : list Action) : System :=
    fold_left step actions s.

  (** *** Cache management *)

Record CacheStats : Type := mkCacheStats {
    totalFiles : nat;
    totalSize : nat;
    totalSizeMB : string;
    oldestEntry : option Z;     (* the instant the ISO string denotes, or [null] *)
    newestEntry : option Z
  }.

Definition getCacheStats : M World CacheStats :=
    w ← get;
    let entries := List.map snd (map_to_list (entries (cacheIndex w))) in
    let totalFiles := List.length entries in
    let totalSize := fold_left (fun sum entry => (sum + fileSize entry)%nat) entries 0%nat in
    if (List.length entries =? 0)%nat then
      mret (mkCacheStats 0 0 "0.00" None None)
    else
      let oldestEntry :=
        fold_left (fun min e => if (timestamp e <? min)%Z then timestamp e else min)
                  entries (clock w) in
      let newestEntry :=
        fold_left (fun max e => if (timestamp e >? max)%Z then timestamp e else max)
                  entries 0%Z in
      mret (mkCacheStats totalFiles totalSize
              (Num.toFixed2 (Num.ofNat totalSize / 1024 / 1024)%Q)
              (Some oldestEntry) (Some newestEntry)).

Definition INDEX_NAME : string := "cache-index.json".

  (** [readdirSync(CACHE_DIR)] *)
Definition readdirSync (w : World) : list string :=
    List.map fst (map_to_list (files w)) ++
    match indexFile w with Some _ => [INDEX_NAME] | None => [] end.

  (** [unlinkSync] in [CACHE_DIR] *)
Definition unlinkSync (name : string) : M World unit :=
    w ← get;
    if decide (name ∈ locked w) then throw "EPERM: operation not permitted"
    else if decide (name = INDEX_NAME) then
      match indexFile w with
      | Some _ => modify (set_indexFile None)
      | None => throw "ENOENT: no such file or directory"
      end
    else
      match files w !! name with
      | Some _ => modify (set_files (delete name (files w)))
      | None => throw "ENOENT: no such file or directory"
      end.

Definition clearCache : M World nat :=
    ensureCacheDir ;;
    w ← get;
    let files := List.filter (fun f => Str.endsWith f ".mp3") (readdirSync w) in
    forEach unlinkSync files ;;
    modify (set_cacheIndex emptyIndex) ;;
    saveCacheIndex ;;
    mret (List.length files).

End TtsHandler.

(** ** renderer/services/PlaybackEngine.ts *)

Module PlaybackEngine.

Local Open Scope Q_scope.

Inductive PlaybackPhase : Type :=
  | idle
  | english
  | pause_after_english
  | spanish_word
  | pause_after_spanish_word
  | spanish_sentence
  | between_entries.

Record PlaybackState : Type := mkState {
    isPlaying : bool;
    isPaused : bool;
    currentEntryIndex : nat;
    currentPhase : PlaybackPhase;
    elapsedTime : Q;
    playbackRate : Q
  }.

Record TimeWindow : Type := mkWindow {
    startTime : Q;
    endTime : Num.bound
  }.

  (** What the engine does to the outside: the callbacks it calls, the
      calls it makes on the TTS service, the timers it starts. *)
Inductive Event : Type :=
  | StateChange (s : PlaybackState)
  | EntryChange (entry : FlashcardEntry) (index : nat)
  | PhaseChange (phase : PlaybackPhase)
  | TimeUpdate (elapsed : Q)
  | Complete
  | Speak (text : string) (lang : Lang) (rate : Q)
  | Delay (ms : Q)
  | TtsPause
  | TtsResume
  | TtsCancel.

  (** An [AbortController] is the number it was created with; its signal
      is aborted when the number is in [abortedSignals]. *)
Record Engine : Type := mkEngine {
    entries : list FlashcardEntry;
    timeWindow : TimeWindow;
    state : PlaybackState;
    abortController : option nat;
    abortedSignals : list nat;
    controllersMade : nat;
    timeUpdateInterval : bool;      (* the 100 ms interval is set *)
    events : list Event             (* oldest first *)
  }.

Definition set_entries (x : list FlashcardEntry) (e : Engine) : Engine :=
    mkEngine x (timeWindow e) (state e) (abortController e) (abortedSignals e)
             (controllersMade e) (timeUpdateInterval e) (events e).
Definition set_timeWindow (x : TimeWindow) (e : Engine) : Engine :=
    mkEngine (entries e) x (state e) (abortController e) (abortedSignals e)
             (controllersMade e) (timeUpdateInterval e) (events e).
Definition set_state (x : PlaybackState) (e : Engine) : Engine :=
    mkEngine (entries e) (timeWindow e) x (abortController e) (abortedSignals e)
             (controllersMade e) (timeUpdateInterval e) (events e).
Definition set_abortController (x : option nat) (e : Engine) : Engine :=
    mkEngine (entries e) (timeWindow e) (state e) x (abortedSignals e)
             (controllersMade e) (timeUpdateInterval e) (events e).
Definition set_abortedSignals (x : list nat) (e : Engine) : Engine :=
    mkEngine (entries e) (timeWindow e) (state e) (abortController e) x
             (controllersMade e) (timeUpdateInterval e) (events e).
Definition set_controllersMade (x : nat) (e : Engine) : Engine :=
    mkEngine (entries e) (timeWindow e) (state e) (abortController e)
             (abortedSignals e) x (timeUpdateInterval e) (events e).
Definition set_timeUpdateInterval (x : bool) (e : Engine) : Engine :=
    mkEngine (entries e) (timeWindow e) (state e) (abortController e)
             (abortedSignals e) (controllersMade e) x (events e).
Definition emit (ev : Event) (e : Engine) : Engine :=
    mkEngine (entries e) (timeWindow e) (state e) (abortController e)
             (abortedSignals e) (controllersMade e) (timeUpdateInterval e)
             (events e ++ [ev]).

Definition set_isPlaying (b : bool) (s : PlaybackState) : PlaybackState :=
    mkState b (isPaused s) (currentEntryIndex s) (currentPhase s) (elapsedTime s)
            (playbackRate s).
Definition set_isPaused (b : bool) (s : PlaybackState) : PlaybackState :=
    mkState (isPlaying s) b (currentEntryIndex s) (currentPhase s) (elapsedTime s)
            (playbackRate s).
Definition set_currentEntryIndex (i : nat) (s : PlaybackState) : PlaybackState :=
    mkState (isPlaying s) (isPaused s) i (currentPhase s) (elapsedTime s)
            (playbackRate s).
Definition set_currentPhase (p : PlaybackPhase) (s : PlaybackState) : PlaybackState :=
    mkState (isPlaying s) (isPaused s) (currentEntryIndex s) p (elapsedTime s)
            (playbackRate s).
Definition set_elapsedTime (t : Q) (s : PlaybackState) : PlaybackState :=
    mkState (isPlaying s) (isPaused s) (currentEntryIndex s) (currentPhase s) t
            (playbackRate s).
Definition set_playbackRate (r : Q) (s : PlaybackState) : PlaybackState :=
    mkState (isPlaying s) (isPaused s) (currentEntryIndex s) (currentPhase s)
            (elapsedTime s) r.

Definition createInitialState : PlaybackState :=
    mkState false false 0 idle 0 1.

  (** [new PlaybackEngine(tts)] *)
Definition create : Engine :=
    mkEngine [] (mkWindow 0 Num.Infinity) createInitialState None [] 0 false [].

Definition notifyStateChange (e : Engine) : Engine := emit (StateChange (state e)) e.

Definition getCurrentEntry (e : Engine) : option FlashcardEntry :=
    entries e !! currentEntryIndex (state e).

Definition notifyEntryChange (e : Engine) : Engine :=
    match getCurrentEntry e with
    | Some entry => emit (EntryChange entry (currentEntryIndex (state e))) e
    | None => e
    end.

Definition setEntries (entries : list FlashcardEntry) (e : Engine) : Engine :=
    let e := set_entries entries e in
    let e := set_state (set_currentEntryIndex 0 (state e)) e in
    notifyStateChange e.

  (** [xs.findIndex(p)], with [None] for [-1] *)
Fixpoint findIndex {A} (p : A -> bool) (xs : list A) : option nat :=
    match xs with
    | [] => None
    | x :: rest => if p x then Some 0%nat else option_map S (findIndex p rest)
    end.

Definition setTimeWindow (window : TimeWindow) (e : Engine) : Engine :=
    let e := set_timeWindow window e in
    let startIndex :=
      findIndex (fun en => Num.geb (cumulativeStartTime en) (startTime window) &&
                           Num.ltb_bound (cumulativeStartTime en) (endTime window))
                (entries e) in
    match startIndex with
    | Some i =>
        if negb (isPlaying (state e)) then
          notifyEntryChange (set_state (set_currentEntryIndex i (state e)) e)
        else e
    | None => e
    end.

Definition setRate (rate : Q) (e : Engine) : Engine :=
    notifyStateChange
      (set_state (set_playbackRate (Num.max (1 # 2) (Num.min 2 rate)) (state e)) e).

Definition getState (e : Engine) : PlaybackState := state e.

Definition startTimeTracking (e : Engine) : Engine :=
    if timeUpdateInterval e then e else set_timeUpdateInterval true e.

Definition stopTimeTracking (e : Engine) : Engine :=
    if timeUpdateInterval e then set_timeUpdateInterval false e else e.

  (** The callback of the interval, every 100 ms while it is set. *)
Definition tick (e : Engine) : Engine :=
    if timeUpdateInterval e && isPlaying (state e) && negb (isPaused (state e)) then
      let e := set_state (set_elapsedTime (elapsedTime (state e) + (1 # 10)) (state e)) e in
      emit (TimeUpdate (elapsedTime (state e))) e
    else e.

Definition pause (e : Engine) : Engine :=
    if negb (isPlaying (state e)) || isPaused (state e) then e else
    let e := set_state (set_isPaused true (state e)) e in
    let e := emit TtsPause e in
    let e := stopTimeTracking e in
    notifyStateChange e.

Definition resume (e : Engine) : Engine :=
    if negb (isPaused (state e)) then e else
    let e := set_state (set_isPaused false (state e)) e in
    let e := emit TtsResume e in
    let e := startTimeTracking e in
    notifyStateChange e.

  (** [this.abortController?.abort()] *)
Definition abortCurrent (e : Engine) : Engine :=
    match abortController e with
    | Some c => set_abortedSignals (c :: abortedSignals e) e
    | None => e
    end.

Definition newAbortController (e : Engine) : Engine :=
    set_controllersMade (S (controllersMade e))
      (set_abortController (Some (controllersMade e)) e).

Definition stop (e : Engine) : Engine :=
    let e := abortCurrent e in
    let e := set_abortController None e in
    let e := emit TtsCancel e in
    let e := stopTimeTracking e in
    let e := set_state (set_isPlaying false (state e)) e in
    let e := set_state (set_isPaused false (state e)) e in
    let e := set_state (set_currentPhase idle (state e)) e in
    notifyStateChange e.

  (** [signal?.aborted] *)
Definition aborted (signal : option nat) (e : Engine) : bool :=
    match signal with
    | Some c => bool_decide (c ∈ abortedSignals e)
    | None => false
    end.

  (** *** A play session that nothing interrupts

      [Run A] is an asynchronous method run from its call to its
      completion while no other code touches the engine: every promise it
      awaits is settled by the service or the timer alone.  [None] means
      that it waits for something only an outside call can bring about. *)

Definition Run (A : Type) : Type := Engine -> option (Res A * Engine).

#[global] Instance Run_ret : MRet Run := fun A a e => Some (Ok a, e).
#[global] Instance Run_bind : MBind Run := fun A B f m e =>
    match m e with
    | Some (Ok a, e') => f a e'
    | Some (Throw msg, e') => Some (Throw msg, e')
    | None => None
    end.

Definition act (f : Engine -> Engine) : Run unit := fun e => Some (Ok tt, f e).
Definition ask : Run Engine := fun e => Some (Ok e, e).
Definition raise {A} (msg : string) : Run A := fun e => Some (Throw msg, e).
Definition stuck {A} : Run A := fun _ => None.
Definition catch {A} (body : Run A) (handler : string -> Run A) : Run A :=
    fun e =>
      match body e with
      | Some (Throw msg, e') => handler msg e'
      | r => r
      end.

Definition AbortError : string := "AbortError".

  (** [while (this.state.isPaused) await sleep(100)] *)
Definition waitWhilePaused : Run unit :=
    e ← ask;
    if isPaused (state e) then stuck else mret tt.

Section Session.
    (** How the TTS service settles [speak(text, lang, rate)]: the audio
        plays to its end, or the promise is rejected. *)
Variable tts : string -> Lang -> Q -> Res unit.

Definition speakWithAbort (text : string) (lang : Lang) (rate : Q)
               (signal : option nat) : Run unit :=
      e ← ask;
      if aborted signal e then raise AbortError else
      act (emit (Speak text lang rate)) ;;
      match tts text lang rate with
      | Ok _ => waitWhilePaused
      | Throw msg => raise msg
      end.

Definition delayWithAbort (ms : Q) (signal : option nat) : Run unit :=
      e ← ask;
      if aborted signal e then raise AbortError else
      act (emit (Delay ms)) ;;
      waitWhilePaused.

Definition setPhase (phase : PlaybackPhase) : Run unit :=
      act (fun e =>
        let e := set_state (set_currentPhase phase (state e)) e in
        let e := emit (PhaseChange phase) e in
        notifyStateChange e).

Definition playEntry (entry : FlashcardEntry) : Run unit :=
      e ← ask;
      let rate := playbackRate (state e) in
      let signal := abortController e in
      setPhase english ;;
      speakWithAbort (englishWord entry) en rate signal ;;
      e ← ask; if aborted signal e then mret tt else
      setPhase pause_after_english ;;
      delayWithAbort (TimeUtils.PAUSE_AFTER_ENGLISH * 1000 / rate) signal ;;
      e ← ask; if aborted signal e then mret tt else
      setPhase spanish_word ;;
      speakWithAbort (spanishWord entry) es rate signal ;;
      e ← ask; if aborted signal e then mret tt else
      setPhase pause_after_spanish_word ;;
      delayWithAbort (TimeUtils.PAUSE_AFTER_SPANISH_WORD * 1000 / rate) signal ;;
      e ← ask; if aborted signal e then mret tt else
      setPhase spanish_sentence ;;
      speakWithAbort (spanishSentence entry) es rate signal ;;
      e ← ask; if aborted signal e then mret tt else
      setPhase between_entries ;;
      delayWithAbort (TimeUtils.PAUSE_BETWEEN_ENTRIES * 1000 / rate) signal.

    (** The [while] loop of [playFromCurrent]; every turn that does not
        leave the loop moves to the next entry, so [fuel] turns are enough
        when [fuel] is the number of entries. *)
Fixpoint playLoop (fuel : nat) : Run unit :=
      e ← ask;
      if isPlaying (state e) && negb (aborted (abortController e) e) &&
         bool_decide (currentEntryIndex (state e) < List.length (entries e))%nat
      then
        match fuel with
        | O => stuck
        | S fuel' =>
            match entries e !! currentEntryIndex (state e) with
            | None => mret tt
            | Some entry =>
                if Num.geb_bound (cumulativeStartTime entry) (endTime (timeWindow e))
                then mret tt
                else
                  playEntry entry ;;
                  e ← ask;
                  if aborted (abortController e) e then mret tt else
                  let nextIndex := (currentEntryIndex (state e) + 1)%nat in
                  match entries e !! nextIndex with
                  | None => mret tt
                  | Some nextEntry =>
                      if Num.geb_bound (cumulativeStartTime nextEntry)
                                       (endTime (timeWindow e))
                      then mret tt
                      else
                        act (fun e =>
                          notifyEntryChange
                            (set_state (set_currentEntryIndex nextIndex (state e)) e)) ;;
                        playLoop fuel'
                  end
            end
        end
      else mret tt.

Definition playFromCurrent : Run unit :=
      e ← ask;
      playLoop (List.length (entries e)) ;;
      e ← ask;
      if negb (aborted (abortController e) e) then
        act stop ;; act (emit Complete)
      else mret tt.

Definition play : Run unit :=
      e ← ask;
      if isPaused (state e) then act resume else
      if isPlaying (state e) then mret tt else
      if (List.length (entries e) =? 0)%nat then mret tt else
      (* [await this.tts.waitForReady()]: the service is configured *)
      act (fun e =>
        let e := set_state (set_isPlaying true (state e)) e in
        let e := set_state (set_isPaused false (state e)) e in
        let e := newAbortController e in
        let e := startTimeTracking e in
        notifyStateChange e) ;;
      catch playFromCurrent (fun _ => mret tt).






End Session.

  (** *** The timer of a pause phase and the transport buttons

      Times are milliseconds.  The user's calls are given with the instant
      at which they run; a call at instant [t] has run when a timer that is
      due at [t] fires. *)

Inductive Control : Type :=
  | PressPause
  | PressResume
  | PressStop.

Definition control (c : Control) (e : Engine) : Engine :=
    match c with
    | PressPause => pause e
    | PressResume => resume e
    | PressStop => stop e
    end.

  (** The engine at instant [t], the calls being in the order of time. *)
Definition engineAt (e : Engine) (calls : list (Q * Control)) (t : Q) : Engine :=
    fold_left (fun e c => if Qle_bool (fst c) t then control (snd c) e else e) calls e.

  (** [waitWhilePaused] entered at instant [t]: the instant it returns. *)
Fixpoint waitWhilePausedFrom (e : Engine) (calls : list (Q * Control))
           (polls : nat) (t : Q) : option Q :=
    if isPaused (state (engineAt e calls t)) then
      match polls with
      | O => None
      | S polls' => waitWhilePausedFrom e calls polls' (t + 100)
      end
    else Some t.

  (** [delayWithAbort(ms, signal)] entered at instant [t0] (no abort): the
      timer set by [setTimeout(..., ms)] is due at [t0 + ms]; no call of
      the engine clears or moves it.  Then comes [waitWhilePaused]. *)
Definition delayEnd (e : Engine) (calls : list (Q * Control)) (polls : nat)
             (t0 ms : Q) : option Q :=
    waitWhilePausedFrom e calls polls (t0 + ms).

End PlaybackEngine.

(** ** main/audioExporter.ts *)

Module AudioExporter.

Local Open Scope Q_scope.

  (** The three directories the exporter works in. *)
Inductive Path : Type :=
  | InCache (name : string)      (* [CACHE_DIR]  *)
  | InTemp (name : string)       (* [TEMP_DIR] = [OUTPUT_DIR/.temp] *)
  | InOutput (name : string).    (* [OUTPUT_DIR] *)

  (** What a file holds, as far as the exporter can tell. *)
Inductive Media : Type :=
  | Raw (data : Buffer)                  (* bytes written by [writeFileSync] *)
  | Wav (numSamples : Z)                 (* the silent PCM file *)
  | Mp3 (inputs : list Path)             (* written by a finished FFmpeg run *)
  | Truncated.                           (* left by a failed FFmpeg run *)

Record Job : Type := mkJob { inputs : list Path; output : Path }.

Inductive Outcome : Type :=
  | Finished
  | Failed (message : string) (leavesOutput : bool).

Record ExportResult : Type := mkResult {
    success : bool;
    path : option Path;
    error : option string
  }.

Record World : Type := mkWorld {
    tts : TtsHandler.World;
    outputDirExists : bool;
    tempDirExists : bool;
    outputFiles : gmap string Media;
    tempFiles : gmap string Media;
    tempLocked : gset string;       (* names [TEMP_DIR] refuses to unlink *)
    progress : list (string * Z)    (* the calls of [onProgress] *)
  }.

Definition set_tts (x : TtsHandler.World) (w : World) : World :=
    mkWorld x (outputDirExists w) (tempDirExists w) (outputFiles w) (tempFiles w)
            (tempLocked w) (progress w).
Definition set_outputDirExists (x : bool) (w : World) : World :=
    mkWorld (tts w) x (tempDirExists w) (outputFiles w) (tempFiles w)
            (tempLocked w) (progress w).
Definition set_tempDirExists (x : bool) (w : World) : World :=
    mkWorld (tts w) (outputDirExists w) x (outputFiles w) (tempFiles w)
            (tempLocked w) (progress w).
Definition set_outputFiles (x : gmap string Media) (w : World) : World :=
    mkWorld (tts w) (outputDirExists w) (tempDirExists w) x (tempFiles w)
            (tempLocked w) (progress w).
Definition set_tempFiles (x : gmap string Media) (w : World) : World :=
    mkWorld (tts w) (outputDirExists w) (tempDirExists w) (outputFiles w) x
            (tempLocked w) (progress w).
Definition set_progress (x : list (string * Z)) (w : World) : World :=
    mkWorld (tts w) (outputDirExists w) (tempDirExists w) (outputFiles w)
            (tempFiles w) (tempLocked w) x.

  (** A computation of the TTS handler, run on the handler's part of the
      world. *)
Definition liftTts {A} (m : M TtsHandler.World A) : M World A :=
    fun w => let '(r, t) := m (tts w) in (r, set_tts t w).

Definition onProgress (phase : string) (percent : Z) : M World unit :=
    modify (fun w => set_progress (progress w ++ [(phase, percent)])%list w).

Definition existsSync (p : Path) : M World bool :=
    w ← get;
    mret match p with
         | InCache name => bool_decide (is_Some (TtsHandler.files (tts w) !! name))
         | InTemp name => bool_decide (is_Some (tempFiles w !! name))
         | InOutput name => bool_decide (is_Some (outputFiles w !! name))
         end.

  (** The exporter writes in [TEMP_DIR] and [OUTPUT_DIR] only. *)
Definition writeFile (p : Path) (m : Media) : M World unit :=
    w ← get;
    match p with
    | InTemp name =>
        if tempDirExists w then modify (set_tempFiles (<[name := m]> (tempFiles w)))
        else throw "ENOENT: no such file or directory"
    | InOutput name =>
        if outputDirExists w then modify (set_outputFiles (<[name := m]> (outputFiles w)))
        else throw "ENOENT: no such file or directory"
    | InCache _ => throw "EACCES: permission denied"
    end.

Definition unlinkSync (p : Path) : M World unit :=
    w ← get;
    match p with
    | InTemp name =>
        if decide (name ∈ tempLocked w) then throw "EPERM: operation not permitted"
        else match tempFiles w !! name with
             | Some _ => modify (set_tempFiles (delete name (tempFiles w)))
             | None => throw "ENOENT: no such file or directory"
             end
    | InOutput name =>
        match outputFiles w !! name with
        | Some _ => modify (set_outputFiles (delete name (outputFiles w)))
        | None => throw "ENOENT: no such file or directory"
        end
    | InCache name => liftTts (TtsHandler.unlinkSync name)
    end.

Definition getCachedAudioPath (text : string) (language : Lang) : M World (option Path) :=
    let voiceId := match language with
                   | es => "jtfxplhZxnBzQICVwoQn"
                   | en => "EXAVITQu4vr4xnSDxMaL"
                   end in
    let languageCode := match language with es => "es-ES" | en => "en-US" end in
    let cacheKey := TtsHandler.generateCacheKey text voiceId languageCode in
    let cachePath := InCache (cacheKey ++ ".mp3") in
    found ← existsSync cachePath;
    mret (if found : bool then Some cachePath else None).

  (** [s.replace(/^data:audio\/mpeg;base64,/, '')] *)
Definition stripPrefix (prefix s : string) : string :=
    if String.prefix prefix s then
      String.substring (String.length prefix)
                       (String.length s - String.length prefix) s
    else s.

Definition dataUrlToFile (dataUrl : string) (outputPath : Path) : M World unit :=
    let base64Data := stripPrefix "data:audio/mpeg;base64," dataUrl in
    writeFile outputPath (Raw (Base64.decode base64Data)).

  (** [s.replace(pattern, by)] for a string pattern: the first occurrence *)
Fixpoint replaceFirst (pattern by_ s : string) : string :=
    if String.prefix pattern s then
      by_ ++ String.substring (String.length pattern)
                              (String.length s - String.length pattern) s
    else
      match s with
      | EmptyString => EmptyString
      | String c s' => String c (replaceFirst pattern by_ s')
      end.

Definition mapPathName (f : string -> string) (p : Path) : Path :=
    match p with
    | InCache n => InCache (f n)
    | InTemp n => InTemp (f n)
    | InOutput n => InOutput (f n)
    end.

Section Pipeline.
    (** The collaborators: FFmpeg and the synthesis gateway. *)
Variable ffmpeg : Job -> Outcome.
Variable gateway : TtsHandler.Request -> TtsHandler.Response.

    (** An FFmpeg run that reads [inputs] and saves to [output]. *)
Definition runFfmpeg (job : Job) : M World unit :=
      match ffmpeg job with
      | Finished => writeFile (output job) (Mp3 (inputs job))
      | Failed message leaves =>
          (if leaves then tryCatch (writeFile (output job) Truncated) (fun _ => mret tt)
           else mret tt) ;;
          throw message
      end.

Definition generateSilence (duration : Q) (outputPath : Path) : M World unit :=
      let sampleRate := 44100%Z in
      let numSamples := Qfloor (inject_Z sampleRate * duration) in
      let wavPath := mapPathName (replaceFirst ".mp3" ".wav") outputPath in
      writeFile wavPath (Wav numSamples) ;;
      tryCatch
        (runFfmpeg (mkJob [wavPath] outputPath) ;;
         tryCatch (unlinkSync wavPath) (fun _ => mret tt))
        (fun err =>
           tryCatch (unlinkSync wavPath) (fun _ => mret tt) ;;
           throw err).

Definition concatenateAudio (inputPaths : list Path) (outputPath : Path) : M World unit :=
      runFfmpeg (mkJob inputPaths outputPath).

    (** [filename.replace(/\.[^/.]+$/, '')] *)
Fixpoint extensionStart (s : string) : option nat :=
      match s with
      | EmptyString => None
      | String c s' =>
          match extensionStart s' with
          | Some n => Some (S n)
          | None =>
              if Ascii.eqb c "." && Str.nonEmpty s' &&
                 negb (Str.contains "/" s') && negb (Str.contains "." s')
              then Some 0%nat else None
          end
      end.

Definition removeExtension (filename : string) : string :=
      match extensionStart filename with
      | Some n => String.substring 0 n filename
      | None => filename
      end.

    (** One fragment: the cached file, or a synthesis written to a
        temporary file. *)
Definition fragment (text : string) (language : Lang) (tempName : string)
               (tempFiles : list Path) : M World (Path * list Path) :=
      cached ← getCachedAudioPath text language;
      match cached with
      | Some p => mret (p, tempFiles)
      | None =>
          dataUrl ← liftTts (TtsHandler.synthesizeSpeech gateway text language None);
          let p := InTemp tempName in
          dataUrlToFile dataUrl p ;;
          mret (p, (tempFiles ++ [p])%list)
      end.

    (** The [for] loop over the entries, from index [i] on. *)
Fixpoint entriesLoop (entries : list FlashcardEntry) (i totalCards : nat)
             (silence1Path silence2Path silence3Path : Path)
             (audioPaths tempFiles : list Path) : M World (list Path * list Path) :=
      match entries with
      | [] => mret (audioPaths, tempFiles)
      | entry :: rest =>
          let progress := Qfloor ((Num.ofNat i / Num.ofNat totalCards) * 70) in
          onProgress ("Generating TTS (" ++ pretty (i + 1)%nat ++ "/" ++
                      pretty totalCards ++ ")") progress ;;
          '(englishPath, tempFiles) ←
            fragment (englishWord entry) en ("temp-en-" ++ pretty i ++ ".mp3") tempFiles;
          let audioPaths := (audioPaths ++ [englishPath; silence1Path])%list in
          '(spanishWordPath, tempFiles) ←
            fragment (spanishWord entry) es ("temp-es-word-" ++ pretty i ++ ".mp3") tempFiles;
          let audioPaths := (audioPaths ++ [spanishWordPath; silence2Path])%list in
          '(spanishSentencePath, tempFiles) ←
            fragment (spanishSentence entry) es
                     ("temp-es-sentence-" ++ pretty i ++ ".mp3") tempFiles;
          let audioPaths := (audioPaths ++ [spanishSentencePath; silence3Path])%list in
          entriesLoop rest (S i) totalCards silence1Path silence2Path silence3Path
                      audioPaths tempFiles
      end.

    (** [try { if (existsSync(path)) unlinkSync(path) } catch { log }] *)
Definition cleanup (p : Path) : M World unit :=
      tryCatch
        (found ← existsSync p; if found : bool then unlinkSync p else mret tt)
        (fun _ => mret tt).

    (** [timestamp] is the instant of the call as the code formats it
        ([YYYYMMDD-HHMMSS]). *)
Definition exportAudioFile (entries : list FlashcardEntry) (filename : string)
               (speed : Q) (timestamp : string) : M World ExportResult :=
      tryCatch
        (modify (fun w => if outputDirExists w then w else set_outputDirExists true w) ;;
         modify (fun w => if tempDirExists w then w else set_tempDirExists true w) ;;
         let baseName := removeExtension filename in
         let outputPath := InOutput (baseName ++ "-export-" ++ timestamp ++ ".mp3") in
         let pause1 := (3 # 2) / speed in
         let pause2 := (8 # 10) / speed in
         let pause3 := 1 / speed in
         onProgress "Preparing silence tracks" 0 ;;
         let silence1Path := InTemp ("silence-" ++ Num.toFixed2 pause1 ++ "s.mp3") in
         let silence2Path := InTemp ("silence-" ++ Num.toFixed2 pause2 ++ "s.mp3") in
         let silence3Path := InTemp ("silence-" ++ Num.toFixed2 pause3 ++ "s.mp3") in
         generateSilence pause1 silence1Path ;;
         generateSilence pause2 silence2Path ;;
         generateSilence pause3 silence3Path ;;
         let totalCards := List.length entries in
         '(audioPaths, tempFiles) ←
           entriesLoop entries 0 totalCards silence1Path silence2Path silence3Path [] [];
         onProgress "Assembling audio" 75 ;;
         concatenateAudio audioPaths outputPath ;;
         onProgress "Saving" 95 ;;
         forEach cleanup tempFiles ;;
         forEach cleanup [silence1Path; silence2Path; silence3Path] ;;
         onProgress "Complete" 100 ;;
         mret (mkResult true (Some outputPath) None))
        (fun message => mret (mkResult false None (Some message))).

End Pipeline.

End AudioExporter.

(** ** Vocabulary of the statements *)

(** The field holds no ['|'], the character [generateCacheKey] joins with. *)
Definition barFree (s : string) : Prop := Str.contains "|" s = false.

(** Every entry starts where the one before it ends, the first one at [t]. *)
Fixpoint chainedFrom (t : Q) (entries : list FlashcardEntry) : Prop :=
  match entries with
  | [] => True
  | e :: rest =>
      cumulativeStartTime e = t /\ chainedFrom (t + estimatedDuration e)%Q rest
  end.

(** The same, entry by entry. *)
Definition offsetsAccumulate (entries : list FlashcardEntry) : Prop :=
  (forall e, entries !! 0%nat = Some e -> cumulativeStartTime e = 0%Q) /\
  (forall i e e',
      entries !! i = Some e -> entries !! S i = Some e' ->
      cumulativeStartTime e' = (cumulativeStartTime e + estimatedDuration e)%Q).

(** The gateway's answer is a failure with this message. *)
Definition failure (r : TtsHandler.Response) : option string :=
  match r with
  | TtsHandler.ConvertError message => Some message
  | TtsHandler.Stream _ f => f
  end.

(** The request [synthesizeSpeech] sends for its arguments, and the name
    of the blob it reads and writes. *)
Definition requestOf (text : string) (language : Lang) (voiceId : option string)
  : TtsHandler.Request :=
  TtsHandler.mkRequest (TtsHandler.selectVoice voiceId language) text
                       "eleven_multilingual_v2".

Definition keyOf (text : string) (language : Lang) (voiceId : option string) : string :=
  TtsHandler.generateCacheKey text (TtsHandler.selectVoice voiceId language)
                              (TtsHandler.localeOf language).

Definition blobOf (text : string) (language : Lang) (voiceId : option string) : string :=
  keyOf text language voiceId ++ ".mp3".

(** ** Sample data *)

Definition world0 : TtsHandler.World :=
  TtsHandler.mkWorld (Some "sk-test") (Some "sk-test") true ∅ None ∅
                     TtsHandler.emptyIndex 1000 [].

Definition sampleAudio : Buffer := list_byte_of_string "ID3-audio".

Definition sampleCacheEntry (text : string) : TtsHandler.CacheEntry :=
  TtsHandler.mkCacheEntry text TtsHandler.VOICE_spanish "es-ES" 500 9 500.

(** A cache of two blobs, the second of which cannot be unlinked. *)
Definition lockedWorld : TtsHandler.World :=
  TtsHandler.mkWorld (Some "sk-test") (Some "sk-test") true
    (<["a.mp3" := sampleAudio]> (<["b.mp3" := sampleAudio]> ∅))
    None
    {["b.mp3"]}
    (TtsHandler.mkCacheIndex "1.0"
       (<["a" := sampleCacheEntry "uno"]> (<["b" := sampleCacheEntry "dos"]> ∅)))
    1000 [].

(** The names [clearCache] sets out to unlink: the files of the cache
    directory whose name ends in [.mp3]. *)
Definition blobNames (w : TtsHandler.World) : list string :=
  List.filter (fun f => Str.endsWith f ".mp3") (TtsHandler.readdirSync w).

(** Five entries whose cumulative offsets are 0, 5, 12, 18 and 25. *)
Definition sampleEntry (n : nat) (start duration : Q) : FlashcardEntry :=
  mkEntry n ("word " ++ pretty n) ("palabra " ++ pretty n)
          ("Una frase con la palabra " ++ pretty n ++ ".") duration start.

Definition sampleEntries : list FlashcardEntry :=
  [ sampleEntry 1 0 5; sampleEntry 2 5 7; sampleEntry 3 12 6;
    sampleEntry 4 18 7; sampleEntry 5 25 6 ].

(** An engine five seconds into a session, in the first pause of its
    second entry. *)
Definition midSession : PlaybackEngine.Engine :=
  PlaybackEngine.mkEngine sampleEntries
    (PlaybackEngine.mkWindow 0 Num.Infinity)
    (PlaybackEngine.mkState true false 1 PlaybackEngine.pause_after_english 5 1)
    (Some 0%nat) [] 1 true [].

(** An idle engine that shows the fourth entry. *)
Definition idleAtFourth : PlaybackEngine.Engine :=
  PlaybackEngine.mkEngine sampleEntries
    (PlaybackEngine.mkWindow 0 Num.Infinity)
    (PlaybackEngine.mkState false false 3 PlaybackEngine.idle 0 1)
    None [] 0 false [].

(** The entry starts inside the window. *)
Definition startsInWindow (window : PlaybackEngine.TimeWindow) (e : FlashcardEntry) : bool :=
  Num.geb (cumulativeStartTime e) (PlaybackEngine.startTime window) &&
  Num.ltb_bound (cumulativeStartTime e) (PlaybackEngine.endTime window).

(** [i] is the index of the first entry that starts inside the window. *)
Definition firstInWindow (window : PlaybackEngine.TimeWindow)
           (entries : list FlashcardEntry) (i : nat) : Prop :=
  (exists e, entries !! i = Some e /\ startsInWindow window e = true) /\
  (forall j e, (j < i)%nat -> entries !! j = Some e -> startsInWindow window e = false).

(** What a listener of the engine hears and sees of a session: the phase
    changes, the fragments spoken, the timed pauses and the completion. *)
Inductive Observed : Type :=
| SawPhase (phase : PlaybackEngine.PlaybackPhase)
| SawSpeak (text : string) (lang : Lang)
| SawDelay (ms : Q)
| SawComplete.

Definition observe1 (ev : PlaybackEngine.Event) : option Observed :=
  match ev with
  | PlaybackEngine.PhaseChange p => Some (SawPhase p)
  | PlaybackEngine.Speak text lang _ => Some (SawSpeak text lang)
  | PlaybackEngine.Delay ms => Some (SawDelay ms)
  | PlaybackEngine.Complete => Some SawComplete
  | _ => None
  end.

Definition observe (evs : list PlaybackEngine.Event) : list Observed :=
  omap observe1 evs.

(** The six phases of one entry at a rate. *)
Definition entryTrace (rate : Q) (e : FlashcardEntry) : list Observed :=
  [ SawPhase PlaybackEngine.english;
    SawSpeak (englishWord e) en;
    SawPhase PlaybackEngine.pause_after_english;
    SawDelay (TimeUtils.PAUSE_AFTER_ENGLISH * 1000 / rate)%Q;
    SawPhase PlaybackEngine.spanish_word;
    SawSpeak (spanishWord e) es;
    SawPhase PlaybackEngine.pause_after_spanish_word;
    SawDelay (TimeUtils.PAUSE_AFTER_SPANISH_WORD * 1000 / rate)%Q;
    SawPhase PlaybackEngine.spanish_sentence;
    SawSpeak (spanishSentence e) es;
    SawPhase PlaybackEngine.between_entries;
    SawDelay (TimeUtils.PAUSE_BETWEEN_ENTRIES * 1000 / rate)%Q ].

Definition phasesOf (obs : list Observed) : list PlaybackEngine.PlaybackPhase :=
  omap (fun o => match o with SawPhase p => Some p | _ => None end) obs.

Definition sixPhases : list PlaybackEngine.PlaybackPhase :=
  [ PlaybackEngine.english; PlaybackEngine.pause_after_english;
    PlaybackEngine.spanish_word; PlaybackEngine.pause_after_spanish_word;
    PlaybackEngine.spanish_sentence; PlaybackEngine.between_entries ].

(** The longest prefix whose elements satisfy [p]. *)
Fixpoint takeWhile {A} (p : A -> bool) (xs : list A) : list A :=
  match xs with
  | [] => []
  | x :: rest => if p x then x :: takeWhile p rest else []
  end.

(** The entry starts before the end of the window. *)
Definition beforeWindowEnd (window : PlaybackEngine.TimeWindow) (e : FlashcardEntry) : bool :=
  negb (Num.geb_bound (cumulativeStartTime e) (PlaybackEngine.endTime window)).

(** A session is under way on controller [c]: playing, not paused, not
    aborted. *)
Definition live (c : nat) (e : PlaybackEngine.Engine) : Prop :=
  PlaybackEngine.abortController e = Some c /\
  (c ∉ PlaybackEngine.abortedSignals e) /\
  PlaybackEngine.isPlaying (PlaybackEngine.state e) = true /\
  PlaybackEngine.isPaused (PlaybackEngine.state e) = false.

(** A TTS service that plays every fragment to its end. *)
Definition ttsAlwaysPlays (text : string) (lang : Lang) (rate : Q) : Res unit := Ok tt.

Definition twoEntries : list FlashcardEntry :=
  FileParser.parseVocabularyFile
    "action | accion - La accion fue emocionante.
cat | gato - El gato duerme." 1.

(** A machine with an empty cache and no output directory yet. *)
Definition exportWorld0 : AudioExporter.World :=
  AudioExporter.mkWorld world0 false false ∅ ∅ ∅ [].

(** FFmpeg that finishes every job. *)
Definition ffmpegFinishes (job : AudioExporter.Job) : AudioExporter.Outcome :=
  AudioExporter.Finished.

(** A gateway that answers every request with the same audio. *)
Definition gatewayAnswers (r : TtsHandler.Request) : TtsHandler.Response :=
  TtsHandler.Stream [sampleAudio] None.

(** A gateway that fails on the word "gato". *)
Definition gatewayFailsOnGato (r : TtsHandler.Request) : TtsHandler.Response :=
  if String.eqb (TtsHandler.reqText r) "gato"
  then TtsHandler.ConvertError "quota exceeded"
  else TtsHandler.Stream [sampleAudio] None.

Definition oneEntry : list FlashcardEntry :=
  FileParser.parseVocabularyFile "cat | gato - El gato duerme." 1.

(** The names of the files of a directory. *)
Definition names {A} (dir : gmap string A) : list string :=
  List.map fst (map_to_list dir).

(** A cache that holds the audio of "hola" in the Spanish default voice. *)
Definition warmWorld : TtsHandler.World :=
  snd (TtsHandler.synthesizeSpeech gatewayAnswers "hola" es None world0).

(** A TTS service that rejects every fragment. *)
Definition ttsAlwaysFails (text : string) (lang : Lang) (rate : Q) : Res unit :=
  Throw "Audio playback failed".

(** An idle engine on the five sample entries, with the window from 0 to
    15: the entries of offsets 0, 5 and 12 start inside it. *)
Definition idleWindowed : PlaybackEngine.Engine :=
  PlaybackEngine.mkEngine sampleEntries
    (PlaybackEngine.mkWindow 0 (Num.Finite 15))
    (PlaybackEngine.mkState false false 1 PlaybackEngine.idle 0 1)
    None [] 0 false [].


(** The entries agree on everything but the two times. *)
Definition sameCard (a b : FlashcardEntry) : Prop :=
  id a = id b /\ englishWord a = englishWord b /\
  spanishWord a = spanishWord b /\ spanishSentence a = spanishSentence b.



(** The progress report made before entry [i] of [totalCards]. *)
Definition ttsProgress (totalCards i : nat) : string * Z :=
  ("Generating TTS (" ++ pretty (i + 1)%nat ++ "/" ++ pretty totalCards ++ ")",
   Qfloor ((Num.ofNat i / Num.ofNat totalCards) * 70)%Q).



(** The computation makes no progress report. *)
Definition quiet {A} (m : M AudioExporter.World A) : Prop :=
  forall w, AudioExporter.progress (snd (m w)) = AudioExporter.progress w.

(** The percentage of the report made before entry [i] of [totalCards]. *)
Definition ttsPercent (totalCards i : nat) : Z := snd (ttsProgress totalCards i).

(** ** What [ENTRY_REGEX] means *)

(** The piece is made of characters of the item's class, as many as its
    quantifier allows. *)
Definition accepts (it : FileParser.item) (piece : string) : Prop :=
  forallb (FileParser.inCls (FileParser.icls it)) (list_ascii_of_string piece) = true /\
  match FileParser.iquant it with
  | FileParser.One => String.length piece = 1%nat
  | FileParser.StarGreedy => True
  | FileParser.PlusGreedy | FileParser.PlusLazy => piece <> EmptyString
  end.

(** [s] is a sequence of pieces, one for each item, and [caps] are the
    pieces of the capture groups. *)
Fixpoint shaped (items : list FileParser.item) (s : string) (caps : list string) : Prop :=
  match items with
  | [] => s = EmptyString /\ caps = []
  | it :: rest =>
      exists piece s' caps',
        s = piece ++ s' /\ accepts it piece /\ shaped rest s' caps' /\
        caps = if FileParser.igroup it then piece :: caps' else caps'
  end.

(** White space only. *)
Definition blank (s : string) : Prop :=
  forallb Str.isSpace (list_ascii_of_string s) = true.

(** Not empty and without a line terminator: what [.+] matches. *)
Definition oneLine (s : string) : Prop :=
  s <> EmptyString /\
  forallb (fun c => negb (Str.isLineTerminator c)) (list_ascii_of_string s) = true.

(* ===================================================================== *)
(** * Part II: properties                                                 *)
(* ===================================================================== *)

(** ** The digest *)

Section Sha256Facts.

  (** The test vectors of FIPS 180-4 for the empty message and for "abc",
      and a message of two blocks. *)
Example sha256_empty :
    Sha256.sha256_hex "" =
    "e3b0c44298fc1c149afbf4c8996fb92427ae41e4649b934ca495991b7852b855".
Proof. vm_compute. reflexivity. Qed.

Example sha256_abc :
    Sha256.sha256_hex "abc" =
    "ba7816bf8f01cfea414140de5dae2223b00361a396177a9cb410ff61f20015ad".
Proof. vm_compute. reflexivity. Qed.

Example sha256_two_blocks :
    Sha256.sha256_hex "abcdbcdecdefdefgefghfghighijhijkijkljklmklmnlmnomnopnopq" =
    "248d6a61d20638b8e5c026930c3e6039a33ce45964ff2167f6ecedd419db06c1".
Proof. vm_compute. reflexivity. Qed.

End Sha256Facts.

(** ** The vocabulary parser *)

Section FileParserFacts.

Import FileParser.

Example parse_two_lines :
    List.map (fun e => (id e, englishWord e, spanishWord e, cumulativeStartTime e))
      (parseVocabularyFile
         "action | accion - La accion fue emocionante.
not an entry
cat | gato - El gato duerme." 1%Q)
    = [ (1%nat, "action", "accion", 0%Q);
        (3%nat, "cat", "gato", (81120 # 14400)%Q) ].
Proof. vm_compute. reflexivity. Qed.

Lemma parseLines_chained rate lines i t :
    chainedFrom t (parseLines rate lines i t).
Proof.
    revert i t. induction lines as [|l rest IH]; intros i t; [exact I|].
    cbn [parseLines].
    destruct (negb (Str.nonEmpty (Str.trim l))); [apply IH|].
    destruct (matchSeq ENTRY_REGEX (Str.trim l)) as [[|m1 [|m2 [|m3 [|m4 caps]]]]|];
      try apply IH.
    cbn [chainedFrom cumulativeStartTime estimatedDuration].
    split; [reflexivity|apply IH].
Qed.

Lemma recalculateFrom_chained rate entries t :
    chainedFrom t (recalculateFrom rate entries t).
Proof.
    revert t. induction entries as [|e rest IH]; intros t; simpl; [exact I|].
    split; [reflexivity|apply IH].
Qed.

Lemma chainedFrom_step t entries i e e' :
    chainedFrom t entries ->
    entries !! i = Some e -> entries !! S i = Some e' ->
    cumulativeStartTime e' = (cumulativeStartTime e + estimatedDuration e)%Q.
Proof.
    revert t i. induction entries as [|x rest IH]; intros t i Hc Hi Hs; [discriminate|].
    destruct Hc as [Hx Hrest]. destruct i as [|i]; simpl in *.
    - injection Hi as ->. destruct rest as [|y rest']; [discriminate|].
      injection Hs as ->. destruct Hrest as [Hy _]. rewrite Hy, Hx. reflexivity.
    - eapply IH; eassumption.
Qed.

Lemma chainedFrom_offsets entries :
    chainedFrom 0%Q entries -> offsetsAccumulate entries.
Proof.
    intros Hc. split.
    - intros e He. destruct entries as [|x rest]; [discriminate|].
      injection He as ->. exact (proj1 Hc).
    - intros i e e'. apply chainedFrom_step with (t := 0%Q). exact Hc.
Qed.

  (** C10. Whatever the vocabulary text and the rate, the entries that
      [parseVocabularyFile] returns, and those that [recalculateDurations]
      returns for any entries at any rate, start at cumulative time 0 and
      each next entry starts at the start of the entry before it plus that
      entry's estimated duration. *)
Theorem cumulative_offsets_accumulate
          (content : string) (playbackRate : Q)
          (entries : list FlashcardEntry) (newRate : Q) :
    offsetsAccumulate (parseVocabularyFile content playbackRate) /\
    offsetsAccumulate (recalculateDurations entries newRate).
Proof.
    split; apply chainedFrom_offsets.
    - apply parseLines_chained.
    - apply recalculateFrom_chained.
Qed.

  (** The last entry's end is what [getTotalDuration] returns. *)
Lemma getTotalDuration_last entries e :
    List.last entries e = e -> entries <> [] ->
    getTotalDuration entries = (cumulativeStartTime e + estimatedDuration e)%Q.
Proof.
    intros Hl Hne. unfold getTotalDuration.
    destruct (exists_last Hne) as [front [x ->]].
    rewrite List.last_last in Hl. subst x.
    rewrite rev_app_distr. reflexivity.
Qed.

End FileParserFacts.

(** ** The cache key *)

Section CacheKeyFacts.

Import TtsHandler.

Lemma append_bar_split a b x y :
    barFree a -> barFree b ->
    a ++ String "|" x = b ++ String "|" y -> a = b /\ x = y.
Proof.
    unfold barFree. revert b. induction a as [|c a IH]; intros b Ha Hb Heq.
    - destruct b as [|d b]; simpl in *.
      + injection Heq as ->. split; reflexivity.
      + injection Heq as <- _. simpl in Hb. discriminate.
    - destruct b as [|d b]; simpl in *.
      + injection Heq as -> _. simpl in Ha. discriminate.
      + injection Heq as -> Heq.
        apply orb_false_elim in Ha as [_ Ha]. apply orb_false_elim in Hb as [_ Hb].
        destruct (IH b Ha Hb Heq) as [-> ->]. split; reflexivity.
Qed.

Lemma cacheKeyInput_injective t1 v1 l1 t2 v2 l2 :
    barFree t1 -> barFree v1 -> barFree t2 -> barFree v2 ->
    cacheKeyInput t1 v1 l1 = cacheKeyInput t2 v2 l2 ->
    (t1, v1, l1) = (t2, v2, l2).
Proof.
    intros Ht1 Hv1 Ht2 Hv2 Heq. unfold cacheKeyInput in Heq.
    apply append_bar_split in Heq as [-> Heq]; [|assumption..].
    apply append_bar_split in Heq as [-> ->]; [|assumption..].
    reflexivity.
Qed.

  (** C1, as the claim states it, fails: the two triples differ in their
      text and in their voice, and have the same digest. *)
Lemma cache_key_boundary_collision :
    ("a|b", "c", "es-ES") <> ("a", "b|c", "es-ES") /\
    generateCacheKey "a|b" "c" "es-ES" = generateCacheKey "a" "b|c" "es-ES".
Proof.
    split; [discriminate|].
    unfold generateCacheKey. f_equal.
Qed.

  (** C1, amended. The digest is a function of the triple: equal triples
      have equal digests.  It is SHA-256 of the three fields joined with
      ['|'], so for triples whose text and voice hold no ['|'], triples
      that differ in some field are hashed from different byte strings:
      their digests are equal only if SHA-256 collides on these two
      strings. *)
Theorem cache_key_separates_bar_free_triples
          (t1 v1 l1 t2 v2 l2 : string) :
    barFree t1 -> barFree v1 -> barFree t2 -> barFree v2 ->
    ((t1, v1, l1) = (t2, v2, l2) ->
       generateCacheKey t1 v1 l1 = generateCacheKey t2 v2 l2) /\
    ((t1, v1, l1) <> (t2, v2, l2) ->
       cacheKeyInput t1 v1 l1 <> cacheKeyInput t2 v2 l2) /\
    (generateCacheKey t1 v1 l1 = generateCacheKey t2 v2 l2 ->
       (t1, v1, l1) = (t2, v2, l2) \/
       (cacheKeyInput t1 v1 l1 <> cacheKeyInput t2 v2 l2 /\
        Sha256.sha256_hex (cacheKeyInput t1 v1 l1) =
        Sha256.sha256_hex (cacheKeyInput t2 v2 l2))).
Proof.
    intros Ht1 Hv1 Ht2 Hv2. repeat split.
    - intros [= -> -> ->]. reflexivity.
    - intros Hne Heq. apply Hne.
      apply cacheKeyInput_injective; assumption.
    - intros Hk.
      destruct (decide (cacheKeyInput t1 v1 l1 = cacheKeyInput t2 v2 l2)) as [Heq|Hne].
      + left. apply cacheKeyInput_injective; assumption.
      + right. split; [exact Hne|exact Hk].
Qed.

Lemma cache_key_separates_witness :
  (("hola", VOICE_spanish, "es-ES") = ("hola", VOICE_english, "en-US") ->
     generateCacheKey "hola" VOICE_spanish "es-ES" =
     generateCacheKey "hola" VOICE_english "en-US") /\
  (("hola", VOICE_spanish, "es-ES") <> ("hola", VOICE_english, "en-US") ->
     cacheKeyInput "hola" VOICE_spanish "es-ES" <>
     cacheKeyInput "hola" VOICE_english "en-US") /\
  (generateCacheKey "hola" VOICE_spanish "es-ES" =
   generateCacheKey "hola" VOICE_english "en-US" ->
     ("hola", VOICE_spanish, "es-ES") = ("hola", VOICE_english, "en-US") \/
     (cacheKeyInput "hola" VOICE_spanish "es-ES" <>
      cacheKeyInput "hola" VOICE_english "en-US" /\
      Sha256.sha256_hex (cacheKeyInput "hola" VOICE_spanish "es-ES") =
      Sha256.sha256_hex (cacheKeyInput "hola" VOICE_english "en-US"))).
Proof.
  apply (cache_key_separates_bar_free_triples
           "hola" VOICE_spanish "es-ES" "hola" VOICE_english "en-US");
    reflexivity.
Defined.

(** The exporter computes the key as the handler does. *)
Example cache_key_of_action :
    generateCacheKey "action" VOICE_english "en-US" =
    "f344f3689421a3f07370ba7659a653eb4bc6954cdadf1f6c657f22b38d50c341".
Proof. vm_compute. reflexivity. Qed.

End CacheKeyFacts.

(** ** The synthesis service and its cache *)

Section TtsHandlerFacts.

Import TtsHandler.

(** The directory once [ensureCacheDir] has run. *)
Lemma ensured_fields w :
  let w' := if dirExists w then w else set_dirExists true w in
  dirExists w' = true /\ files w' = files w /\ cacheIndex w' = cacheIndex w /\
  indexFile w' = indexFile w /\ requests w' = requests w /\ clock w' = clock w /\
  client w' = client w /\ apiKey w' = apiKey w /\ locked w' = locked w.
Proof. destruct (dirExists w) eqn:E; cbn; rewrite ?E; repeat split; reflexivity. Qed.

Lemma synthesizeStart_unconfigured w text language voiceId :
  client w = None ->
  synthesizeStart text language voiceId w =
  (Throw "ElevenLabs API key not configured", w).
Proof.
  intros Hc. unfold synthesizeStart, mbind, M_bind, get. rewrite Hc.
  rewrite bool_decide_eq_false_2 by (intros [x Hx]; discriminate). reflexivity.
Qed.

Lemma synthesizeStart_miss w text language voiceId :
  is_Some (client w) ->
  files w !! blobOf text language voiceId = None ->
  synthesizeStart text language voiceId w =
  (Ok (Awaiting (mkPending text (selectVoice voiceId language) (localeOf language)
                           (keyOf text language voiceId) (blobOf text language voiceId))),
   set_requests (requests w ++ [requestOf text language voiceId])%list
                (if dirExists w then w else set_dirExists true w)).
Proof.
  intros Hc Hmiss. unfold synthesizeStart, mbind, M_bind, get.
  rewrite (bool_decide_eq_true_2 _ Hc). cbn [negb].
  unfold ensureCacheDir, modify.
  destruct (ensured_fields w) as (_ & Hf & _). cbv zeta in Hf.
  unfold blobOf, keyOf in Hmiss. rewrite Hf, Hmiss.
  unfold mret, M_ret. destruct (ensured_fields w) as (_ & _ & _ & _ & Hr & _).
  cbv zeta in Hr. rewrite Hr. reflexivity.
Qed.


Lemma synthesizeFinish_success p chunks w :
  dirExists w = true ->
  let audio := List.concat chunks in
  let index :=
    mkCacheIndex (version (cacheIndex w))
      (<[pKey p := mkCacheEntry (pText p) (pVoice p) (pLanguageCode p) (clock w)
                                (List.length audio) (clock w)]>
         (entries (cacheIndex w))) in
  synthesizeFinish p (Stream chunks None) w =
  (Ok (dataUrl audio),
   set_indexFile (Some (Json index))
     (set_cacheIndex index (set_files (<[pPath p := audio]> (files w)) w))).
Proof.
  intros Hd. cbn. unfold writeFileSync, saveCacheIndex, tryCatch, mbind, M_bind, get,
    modify, mret, M_ret. rewrite Hd. cbn. rewrite Hd. reflexivity.
Qed.



Lemma synthesizeStart_hit w text language voiceId audio :
  is_Some (client w) ->
  files w !! blobOf text language voiceId = Some audio ->
  exists w',
    synthesizeStart text language voiceId w = (Ok (Returned (dataUrl audio)), w') /\
    files w' = files w /\ requests w' = requests w /\ client w' = client w /\
    dirExists w' = true /\ clock w' = clock w /\
    version (cacheIndex w') = version (cacheIndex w) /\
    entries (cacheIndex w') =
      match entries (cacheIndex w) !! keyOf text language voiceId with
      | Some e => <[keyOf text language voiceId :=
                     mkCacheEntry (TtsHandler.text e) (TtsHandler.voiceId e)
                       (languageCode e) (timestamp e) (fileSize e) (clock w)]>
                    (entries (cacheIndex w))
      | None => entries (cacheIndex w)
      end.
Proof.
  intros Hc Hhit. unfold synthesizeStart, mbind, M_bind, get.
  rewrite (bool_decide_eq_true_2 _ Hc). cbn [negb].
  unfold ensureCacheDir, modify, blobOf, keyOf in *.
  destruct (dirExists w) eqn:Hd; cbn [files set_dirExists cacheIndex clock];
    rewrite Hhit;
    (destruct (entries (cacheIndex w) !! _) as [e|] eqn:He;
     [ unfold saveCacheIndex, tryCatch, mbind, M_bind, get, modify, mret, M_ret;
       cbn; rewrite ?Hd; cbn
     | unfold mret, M_ret; cbn ]);
    eexists; (split; [reflexivity|]); cbn; rewrite ?Hd; repeat split; reflexivity.
Qed.

(** *** Overlapping calls *)

Lemma step_invoke_miss s task text language voiceId :
  is_Some (client (world s)) ->
  files (world s) !! blobOf text language voiceId = None ->
  step s (Invoke task text language voiceId) =
  mkSystem
    (set_requests (requests (world s) ++ [requestOf text language voiceId])%list
       (if dirExists (world s) then world s else set_dirExists true (world s)))
    (<[task := mkPending text (selectVoice voiceId language) (localeOf language)
                         (keyOf text language voiceId) (blobOf text language voiceId)]>
       (pending s))
    (settled s).
Proof.
  intros Hc Hm. unfold step. rewrite (synthesizeStart_miss _ _ _ _ Hc Hm). reflexivity.
Qed.

Lemma step_invoke_hit s task text language voiceId url w' :
  synthesizeStart text language voiceId (world s) = (Ok (Returned url), w') ->
  step s (Invoke task text language voiceId) =
  mkSystem w' (pending s) (<[task := Ok url]> (settled s)).
Proof. intros H. unfold step. rewrite H. reflexivity. Qed.

Lemma step_respond s task p r res w' :
  pending s !! task = Some p ->
  synthesizeFinish p r (world s) = (res, w') ->
  step s (Respond task r) =
  mkSystem w' (delete task (pending s)) (<[task := res]> (settled s)).
Proof. intros Hp H. unfold step. rewrite Hp, H. reflexivity. Qed.

(** C2, as the claim states it, fails: two calls for the same text, the
    second one made while the first one waits for the gateway, call the
    gateway twice with the same request. *)
Lemma concurrent_calls_invoke_gateway_twice :
  let s := run (mkSystem world0 ∅ ∅)
               [Invoke 1 "hola" es None; Invoke 2 "hola" es None;
                Respond 1 (Stream [sampleAudio] None);
                Respond 2 (Stream [sampleAudio] None)] in
  requests (world s) = [requestOf "hola" es None; requestOf "hola" es None] /\
  List.length (requests (world s)) <> 1%nat.
Proof. vm_compute. split; [reflexivity|discriminate]. Qed.

(** C2, amended. The service keeps no record of the calls in flight.  A
    call that finds no blob for its fingerprint calls the gateway, so two
    calls for the same (text, voice, language) of which the second starts
    while the first awaits the gateway make two gateway calls, with the
    same request.  Only a call that starts after the first one has stored
    its audio is served from the cache, without a gateway call. *)
Theorem overlapping_calls_are_not_coalesced
        (w : World) (text : string) (language : Lang) (voiceId : option string)
        (chunks : list Buffer) :
  is_Some (client w) ->
  files w !! blobOf text language voiceId = None ->
  let s := mkSystem w ∅ ∅ in
  let call task := Invoke task text language voiceId in
  let req := requestOf text language voiceId in
  requests (world (run s [call 1%nat; call 2%nat])) = (requests w ++ [req; req])%list /\
  (let s' := run s [call 1%nat; Respond 1 (Stream chunks None); call 2%nat] in
   requests (world s') = (requests w ++ [req])%list /\
   settled s' !! 2%nat = Some (Ok (dataUrl (List.concat chunks)))).
Proof.
  intros Hc Hm. cbv zeta.
  set (s := mkSystem w ∅ ∅). set (req := requestOf text language voiceId).
  destruct (ensured_fields w) as (Hd & Hf & Hi & Hx & Hr & Hk & Hcl & _).
  cbv zeta in *.
  assert (H1 : step s (Invoke 1 text language voiceId) =
               mkSystem (set_requests (requests w ++ [req])%list
                           (if dirExists w then w else set_dirExists true w))
                 (<[1%nat := mkPending text (selectVoice voiceId language)
                               (localeOf language) (keyOf text language voiceId)
                               (blobOf text language voiceId)]> ∅) ∅)
    by apply (step_invoke_miss s 1 text language voiceId Hc Hm).
  set (we := if dirExists w then w else set_dirExists true w) in *. clearbody we.
  assert (H1' : step s (Invoke 1 text language voiceId) =
               mkSystem (set_requests (requests w ++ [req])%list we)
                 (<[1%nat := mkPending text (selectVoice voiceId language)
                               (localeOf language) (keyOf text language voiceId)
                               (blobOf text language voiceId)]> ∅) ∅).
    by exact H1.
  clear H1. rename H1' into H1.
  split.
  - unfold run. cbn [fold_left]. rewrite H1.
    rewrite step_invoke_miss; cbn; [|rewrite Hcl; exact Hc|rewrite Hf; exact Hm].
    rewrite <- app_assoc. reflexivity.
  - unfold run. cbn [fold_left]. rewrite H1.
    erewrite step_respond;
      [|apply lookup_insert_eq
       |apply synthesizeFinish_success; cbn; exact Hd].
    cbn [pPath pKey pText pVoice pLanguageCode].
    match goal with
    | |- context [step (mkSystem ?w2 ?p ?r) _] =>
        destruct (synthesizeStart_hit w2 text language voiceId (List.concat chunks))
          as (w3 & Hs & _ & Hreq & _)
    end.
    + cbn. rewrite Hcl. exact Hc.
    + cbn. apply lookup_insert_eq.
    + erewrite step_invoke_hit by exact Hs. cbn [world settled]. split.
      * rewrite Hreq. reflexivity.
      * apply lookup_insert_eq.
Qed.

Lemma overlapping_calls_witness :
  let s := mkSystem world0 ∅ ∅ in
  let call task := Invoke task "hola" es None in
  let req := requestOf "hola" es None in
  requests (world (run s [call 1%nat; call 2%nat])) = (requests world0 ++ [req; req])%list /\
  (let s' := run s [call 1%nat; Respond 1 (Stream [sampleAudio] None); call 2%nat] in
   requests (world s') = (requests world0 ++ [req])%list /\
   settled s' !! 2%nat = Some (Ok (dataUrl (List.concat [sampleAudio])))).
Proof.
  apply (overlapping_calls_are_not_coalesced world0 "hola" es None [sampleAudio]).
  - eexists; reflexivity.
  - reflexivity.
Defined.

(** *** Clearing the cache *)

Lemma map_fst_fmap {A B} (l : list (A * B)) : List.map fst l = l.*1.
Proof. induction l as [|x l IH]; [reflexivity|]. cbn. rewrite IH. reflexivity. Qed.

Lemma index_name_not_mp3 : Str.endsWith INDEX_NAME ".mp3" = false.
Proof. vm_compute. reflexivity. Qed.

Lemma blobNames_files w :
  blobNames w =
  List.filter (fun f => Str.endsWith f ".mp3") (List.map fst (map_to_list (files w))).
Proof.
  unfold blobNames, readdirSync. rewrite List.filter_app.
  destruct (indexFile w); cbn; rewrite ?index_name_not_mp3; apply app_nil_r.
Qed.

Lemma blobNames_spec w n :
  n ∈ blobNames w <-> Str.endsWith n ".mp3" = true /\ is_Some (files w !! n).
Proof.
  rewrite blobNames_files, list_elem_of_In, filter_In, <- list_elem_of_In, map_fst_fmap.
  rewrite list_elem_of_fmap. split.
  - intros [[[k v] [-> Hkv]] He]. split; [exact He|].
    apply elem_of_map_to_list in Hkv. eexists; exact Hkv.
  - intros [He [v Hv]]. split; [|exact He].
    exists (n, v). split; [reflexivity|]. apply elem_of_map_to_list. exact Hv.
Qed.

Lemma blobNames_NoDup w : NoDup (blobNames w).
Proof.
  rewrite blobNames_files. apply NoDup_ListNoDup, List.NoDup_filter, NoDup_ListNoDup.
  rewrite map_fst_fmap. apply NoDup_fst_map_to_list.
Qed.

Lemma blobNames_not_index w n : n ∈ blobNames w -> n <> INDEX_NAME.
Proof.
  intros Hn ->. apply blobNames_spec in Hn as [He _].
  rewrite index_name_not_mp3 in He. discriminate.
Qed.

(** The files left when [names] have been unlinked one after the other. *)
Lemma lookup_unlinked (names : list string) (m : gmap string Buffer) n :
  fold_left (fun m x => delete x m) names m !! n =
  if decide (n ∈ names) then None else m !! n.
Proof.
  revert m. induction names as [|x names IH]; intros m; cbn.
  - destruct (decide (n ∈ [])) as [H|_]; [inversion H|reflexivity].
  - rewrite IH. destruct (decide (n ∈ names)) as [Hin|Hout].
    + rewrite decide_True by (right; exact Hin). reflexivity.
    + destruct (decide (n = x)) as [->|Hne].
      * rewrite decide_True by left. apply lookup_delete_eq.
      * rewrite decide_False.
        -- rewrite lookup_delete_ne by congruence. reflexivity.
        -- intros H. apply elem_of_cons in H as [H|H]; [exact (Hne H)|exact (Hout H)].
Qed.

Lemma unlinkSync_blob w n :
  n ∉ locked w -> n <> INDEX_NAME -> is_Some (files w !! n) ->
  unlinkSync n w = (Ok tt, set_files (delete n (files w)) w).
Proof.
  intros Hl Hi [v Hv]. unfold unlinkSync, mbind, M_bind, get.
  rewrite decide_False by exact Hl. rewrite decide_False by exact Hi.
  rewrite Hv. reflexivity.
Qed.


Lemma unlink_all names : forall w,
  NoDup names ->
  (forall n, n ∈ names -> (n ∉ locked w) /\ n <> INDEX_NAME /\ is_Some (files w !! n)) ->
  forEach unlinkSync names w =
  (Ok tt, set_files (fold_left (fun m x => delete x m) names (files w)) w).
Proof.
  induction names as [|x names IH]; intros w Hnd Hall.
  - destruct w; reflexivity.
  - apply NoDup_cons in Hnd as [Hx Hnd].
    destruct (Hall x) as (Hl & Hi & Hs); [left|].
    cbn [forEach]. unfold mbind, M_bind. rewrite unlinkSync_blob by assumption.
    rewrite IH; [reflexivity|exact Hnd|].
    intros n Hn. destruct (Hall n) as (Hl' & Hi' & Hs'); [right; exact Hn|].
    cbn. repeat split; try assumption.
    rewrite lookup_delete_ne by (intros ->; contradiction). exact Hs'.
Qed.


Lemma blobNames_ensured w :
  blobNames (if dirExists w then w else set_dirExists true w) = blobNames w.
Proof. destruct (dirExists w); reflexivity. Qed.

Lemma getCacheStats_empty w :
  entries (cacheIndex w) = ∅ ->
  getCacheStats w = (Ok (mkCacheStats 0 0 "0.00" None None), w).
Proof.
  intros He. unfold getCacheStats, mbind, M_bind, get. rewrite He.
  rewrite map_to_list_empty. reflexivity.
Qed.

Lemma saveCacheIndex_eq w :
  saveCacheIndex w =
  (Ok tt, if dirExists w then set_indexFile (Some (Json (cacheIndex w))) w else w).
Proof.
  unfold saveCacheIndex, tryCatch, mbind, M_bind, get, modify, throw, mret, M_ret.
  destruct (dirExists w); reflexivity.
Qed.

Lemma clearCache_eq w :
  clearCache w =
  let we := if dirExists w then w else set_dirExists true w in
  match forEach unlinkSync (blobNames we) we with
  | (Ok _, s) =>
      (Ok (List.length (blobNames we)),
       if dirExists s then set_indexFile (Some (Json emptyIndex)) (set_cacheIndex emptyIndex s)
       else set_cacheIndex emptyIndex s)
  | (Throw e, s) => (Throw e, s)
  end.
Proof.
  unfold clearCache, mbind, M_bind, ensureCacheDir, modify, get. cbv zeta.
  fold (blobNames (if dirExists w then w else set_dirExists true w)).
  destruct (forEach unlinkSync _ _) as [[[]|e] s]; [|reflexivity].
  rewrite saveCacheIndex_eq. reflexivity.
Qed.

(** When no blob is locked, [clearCache] unlinks every file whose name
    ends in [.mp3], leaves the other files, empties the index in memory and
    on disk, and returns the number of files it unlinked; the statistics
    then count no file. *)
Theorem clearCache_removes_every_blob (w : World) :
  (forall n, n ∈ blobNames w -> n ∉ locked w) ->
  exists w',
    clearCache w = (Ok (List.length (blobNames w)), w') /\
    (forall n, files w' !! n =
               if Str.endsWith n ".mp3" then None else files w !! n) /\
    blobNames w' = [] /\
    cacheIndex w' = emptyIndex /\
    indexFile w' = Some (Json emptyIndex) /\
    getCacheStats w' = (Ok (mkCacheStats 0 0 "0.00" None None), w').
Proof.
  intros Hfree. rewrite clearCache_eq. cbv zeta.
  destruct (ensured_fields w) as (Hd & Hf & Hi & Hx & Hr & Hk & Hcl & Hak & Hlk).
  cbv zeta in *.
  pose proof (blobNames_ensured w) as Hb.
  set (we := if dirExists w then w else set_dirExists true w) in *. clearbody we.
  rewrite unlink_all; [|apply blobNames_NoDup|].
  2:{ intros n Hn. repeat split.
      - rewrite Hlk. apply Hfree. rewrite <- Hb. exact Hn.
      - apply (blobNames_not_index we). exact Hn.
      - apply blobNames_spec in Hn as [_ Hs]. exact Hs. }
  assert (Hfiles : forall n,
             fold_left (fun m x => delete x m) (blobNames we) (files we) !! n =
             if Str.endsWith n ".mp3" then None else files w !! n).
  { intros n. rewrite lookup_unlinked.
    destruct (decide (n ∈ blobNames we)) as [Hin|Hout].
    - apply blobNames_spec in Hin as [-> _]. reflexivity.
    - destruct (Str.endsWith n ".mp3") eqn:He; [|rewrite Hf; reflexivity].
      destruct (files we !! n) as [v|] eqn:Hv; [|reflexivity].
      exfalso. apply Hout, blobNames_spec. split; [exact He|eexists; exact Hv]. }
  cbn [dirExists set_files]. rewrite Hd. rewrite Hb in *.
  eexists. split; [reflexivity|]. cbn [files cacheIndex indexFile set_indexFile set_cacheIndex set_files].
  split; [exact Hfiles|]. split; [|split; [reflexivity|split; [reflexivity|]]].
  - match goal with |- blobNames ?x = [] => destruct (blobNames x) as [|n rest] eqn:Hn end;
      [reflexivity|]. exfalso.
    assert (Hin : n ∈ n :: rest) by left. rewrite <- Hn in Hin.
    apply blobNames_spec in Hin as [He [v Hv]]. cbn in Hv.
    rewrite Hfiles, He in Hv. discriminate.
  - apply getCacheStats_empty. reflexivity.
Qed.

Lemma clearCache_removes_witness :
  exists w',
    clearCache warmWorld = (Ok 1%nat, w') /\
    blobNames w' = [] /\ cacheIndex w' = emptyIndex.
Proof.
  destruct (clearCache_removes_every_blob warmWorld) as (w' & H1 & _ & H3 & H4 & _).
  - intros n _. assert (E : locked warmWorld = ∅) by (vm_compute; reflexivity).
    rewrite E. apply not_elem_of_empty.
  - assert (L : List.length (blobNames warmWorld) = 1%nat) by (vm_compute; reflexivity).
    rewrite L in H1. exists w'. repeat split; assumption.
Defined.



(** C8 at a failing input: a cache of two blobs of which the second one
    cannot be unlinked.  [clearCache] throws after it has unlinked the
    first blob: no count is returned, one blob is gone and one is left, and
    the index still lists both, so that the statistics count two files. *)
Theorem clearCache_aborts_partway :
  let '(result, w') := clearCache lockedWorld in
  result = Throw "EPERM: operation not permitted" /\
  List.map fst (map_to_list (files lockedWorld)) = ["a.mp3"; "b.mp3"] /\
  List.map fst (map_to_list (files w')) = ["b.mp3"] /\
  List.map fst (map_to_list (entries (cacheIndex w'))) = ["a"; "b"] /\
  option_map totalFiles
    (match fst (getCacheStats w') with Ok st => Some st | Throw _ => None end)
    = Some 2%nat.
Proof. vm_compute. repeat split; reflexivity. Qed.

End TtsHandlerFacts.

(** ** The playback engine: transport state *)

Section TransportFacts.

Import PlaybackEngine.

Lemma findIndex_first {A} (p : A -> bool) (xs : list A) (i : nat) :
  findIndex p xs = Some i <->
  (exists x, xs !! i = Some x /\ p x = true) /\
  (forall j y, (j < i)%nat -> xs !! j = Some y -> p y = false).
Proof.
  revert i. induction xs as [|x xs IH]; intros i; cbn.
  - split; [discriminate|]. intros [[y [Hy _]] _]. discriminate.
  - destruct (p x) eqn:Hp.
    + split.
      * intros [= <-]. split; [exists x; split; [reflexivity|exact Hp]|].
        intros j y Hj. lia.
      * intros [[y [Hy Hpy]] Hfirst]. destruct i as [|i]; [reflexivity|].
        specialize (Hfirst 0%nat x ltac:(lia) eq_refl). congruence.
    + destruct (findIndex p xs) as [k|] eqn:Hk; cbn.
      * split.
        -- intros [= <-]. destruct (proj1 (IH k) eq_refl) as [Hex Hfirst].
           split; [exact Hex|]. intros [|j] y Hj Hy.
           ++ injection Hy as <-. exact Hp.
           ++ apply (Hfirst j y); [lia|exact Hy].
        -- intros [[y [Hy Hpy]] Hfirst]. destruct i as [|i].
           ++ injection Hy as <-. congruence.
           ++ f_equal. assert (Some k = Some i) as [= ->]; [|reflexivity].
              apply IH. split; [exists y; split; assumption|].
              intros j z Hj Hz. apply (Hfirst (S j) z); [lia|exact Hz].
      * split; [discriminate|]. intros [[y [Hy Hpy]] Hfirst]. destruct i as [|i].
        -- injection Hy as <-. congruence.
        -- assert (None = Some i) as Habs; [|discriminate].
           apply IH. split; [exists y; split; assumption|].
           intros j z Hj Hz. apply (Hfirst (S j) z); [lia|exact Hz].
Qed.

Lemma findIndex_none {A} (p : A -> bool) (xs : list A) :
  findIndex p xs = None <-> (forall x, x ∈ xs -> p x = false).
Proof.
  induction xs as [|x xs IH]; cbn.
  - split; [intros _ y Hy; inversion Hy|reflexivity].
  - destruct (p x) eqn:Hp.
    + split; [discriminate|]. intros H. specialize (H x ltac:(left)). congruence.
    + destruct (findIndex p xs) as [k|]; cbn.
      * split; [discriminate|]. intros H.
        assert (Some k = None) as Habs; [|discriminate].
        apply IH. intros y Hy. apply H. right. exact Hy.
      * split; [|reflexivity]. intros _ y Hy.
        apply elem_of_cons in Hy as [->|Hy]; [exact Hp|].
        apply (proj1 IH eq_refl). exact Hy.
Qed.



(** C7, as the claim states it, fails: nothing plays and the current
    entry (offset 18) starts inside the window from 10 to 20, yet
    [setTimeWindow] moves the index to the entry of offset 12. *)
Lemma setTimeWindow_moves_an_index_inside_the_window :
  let window := mkWindow 10 (Num.Finite 20) in
  isPlaying (state idleAtFourth) = false /\
  option_map (startsInWindow window) (getCurrentEntry idleAtFourth) = Some true /\
  currentEntryIndex (state idleAtFourth) = 3%nat /\
  currentEntryIndex (state (setTimeWindow window idleAtFourth)) = 2%nat.
Proof. vm_compute. repeat split; reflexivity. Qed.

(** C7, amended. [setTimeWindow] stores the window.  When nothing plays
    and some entry starts inside the window, the index becomes that of the
    first such entry, wherever the index was, inside the window or not.
    When the engine plays (paused or not), or when no entry starts inside
    the window, the state is unchanged.  With offsets 0, 5, 12, 18, 25 and
    the window from 10 to 20 an idle engine ends at the entry of offset
    12. *)
Theorem setTimeWindow_snaps_to_first_entry_when_idle
        (e : Engine) (window : TimeWindow) :
  timeWindow (setTimeWindow window e) = window /\
  (forall i, isPlaying (state e) = false -> firstInWindow window (entries e) i ->
     state (setTimeWindow window e) = set_currentEntryIndex i (state e)) /\
  (isPlaying (state e) = true -> state (setTimeWindow window e) = state e) /\
  ((forall en, en ∈ entries e -> startsInWindow window en = false) ->
     state (setTimeWindow window e) = state e) /\
  (entries e = sampleEntries -> window = mkWindow 10 (Num.Finite 20) ->
   isPlaying (state e) = false ->
   option_map cumulativeStartTime (getCurrentEntry (setTimeWindow window e))
     = Some 12%Q).
Proof.
  unfold setTimeWindow. cbn [entries set_timeWindow state].
  fold (startsInWindow window).
  destruct (findIndex (startsInWindow window) (entries e)) as [k|] eqn:Hk.
  - apply findIndex_first in Hk as Hfirst.
    split; [|split; [|split; [|split]]].
    + destruct (isPlaying (state e)); [reflexivity|].
      unfold notifyEntryChange, getCurrentEntry. cbn.
      destruct (entries e !! k); reflexivity.
    + intros i Hidle Hi. rewrite Hidle. cbn [negb].
      apply findIndex_first in Hi. rewrite Hk in Hi. injection Hi as <-.
      unfold notifyEntryChange, getCurrentEntry. cbn.
      destruct (entries e !! k); reflexivity.
    + intros ->. reflexivity.
    + intros Hnone. apply findIndex_none in Hnone. congruence.
    + intros He -> Hidle. rewrite He in Hk. vm_compute in Hk. injection Hk as <-.
      rewrite Hidle. cbn [negb].
      unfold notifyEntryChange, getCurrentEntry. cbn. rewrite He.
      unfold sampleEntries. cbn. rewrite He. reflexivity.
  - split; [reflexivity|]. split; [|split; [|split]]; try reflexivity.
    + intros i _ Hi. apply findIndex_first in Hi. congruence.
    + intros He ->. rewrite He in Hk. vm_compute in Hk. discriminate.
Qed.

Lemma setTimeWindow_witness :
  option_map cumulativeStartTime
    (getCurrentEntry (setTimeWindow (mkWindow 10 (Num.Finite 20)) idleAtFourth))
  = Some 12%Q.
Proof.
  apply (setTimeWindow_snaps_to_first_entry_when_idle
           idleAtFourth (mkWindow 10 (Num.Finite 20))); reflexivity.
Defined.

End TransportFacts.

(** ** The playback engine: a session *)

Section SessionFacts.

Import PlaybackEngine.

Variable tts : string -> Lang -> Q -> Res unit.
Hypothesis tts_plays : forall text lang rate, tts text lang rate = Ok tt.

Lemma observe_app evs1 evs2 : observe (evs1 ++ evs2) = (observe evs1 ++ observe evs2)%list.
Proof. apply omap_app. Qed.

Lemma playEntry_live c e entry :
  live c e ->
  exists e',
    playEntry tts entry e = Some (Ok tt, e') /\
    live c e' /\
    entries e' = entries e /\
    timeWindow e' = timeWindow e /\
    currentEntryIndex (state e') = currentEntryIndex (state e) /\
    playbackRate (state e') = playbackRate (state e) /\
    elapsedTime (state e') = elapsedTime (state e) /\
    observe (events e') =
      (observe (events e) ++ entryTrace (playbackRate (state e)) entry)%list.
Proof.
  intros (Hc & Hna & Hplay & Hpause).
  destruct e as [ents tw [pl pa idx ph el rate] ac ab cm ti evs].
  cbn in Hc, Hna, Hplay, Hpause. subst ac pl pa.
  unfold playEntry, speakWithAbort, delayWithAbort, setPhase, waitWhilePaused,
    act, ask, raise, mbind, Run_bind, mret, Run_ret, aborted.
  cbn. repeat (first [rewrite (bool_decide_eq_false_2 _ Hna) | rewrite tts_plays]; cbn).
  eexists. split; [reflexivity|]. cbn.
  unfold live. cbn. repeat split; try assumption.
  unfold observe. rewrite <- !app_assoc. rewrite omap_app. reflexivity.
Qed.

Lemma drop_lookup_cons {A} (xs : list A) i x :
  xs !! i = Some x -> drop i xs = x :: drop (S i) xs.
Proof.
  revert i. induction xs as [|y xs IH]; intros [|i] H; try discriminate.
  - injection H as ->. reflexivity.
  - cbn. apply IH. exact H.
Qed.

Lemma playLoop_live c : forall fuel e,
  live c e ->
  (List.length (entries e) - currentEntryIndex (state e) <= fuel)%nat ->
  exists e',
    playLoop tts fuel e = Some (Ok tt, e') /\
    live c e' /\
    entries e' = entries e /\
    timeWindow e' = timeWindow e /\
    playbackRate (state e') = playbackRate (state e) /\
    elapsedTime (state e') = elapsedTime (state e) /\
    (currentEntryIndex (state e) <= currentEntryIndex (state e'))%nat /\
    observe (events e') =
      (observe (events e) ++
       flat_map (entryTrace (playbackRate (state e)))
         (takeWhile (beforeWindowEnd (timeWindow e))
                    (drop (currentEntryIndex (state e)) (entries e))))%list.
Proof.
  induction fuel as [|fuel IH]; intros e Hlive Hfuel.
  - (* no entry is left *)
    exists e. destruct Hlive as (Hc & Hna & Hplay & Hpause).
    assert (Hge : (List.length (entries e) <= currentEntryIndex (state e))%nat) by lia.
    cbn. unfold mbind, Run_bind, ask, mret, Run_ret, aborted.
    rewrite Hplay, Hc, (bool_decide_eq_false_2 _ Hna).
    rewrite bool_decide_eq_false_2 by lia. cbn.
    rewrite drop_ge by exact Hge. cbn [flat_map]. rewrite ?app_nil_r.
    repeat split; try assumption; try reflexivity; lia.
  - pose proof Hlive as (Hc & Hna & Hplay & Hpause).
    cbn [playLoop]. unfold mbind at 1, Run_bind at 1, ask at 1.
    unfold aborted at 1. rewrite Hplay, Hc, (bool_decide_eq_false_2 _ Hna). cbn [negb andb].
    destruct (decide (currentEntryIndex (state e) < List.length (entries e))%nat)
      as [Hlt|Hge].
    2:{ rewrite bool_decide_eq_false_2 by exact Hge. exists e.
        rewrite drop_ge by lia. cbn [flat_map]. rewrite ?app_nil_r.
        repeat split; try assumption; try reflexivity; lia. }
    rewrite bool_decide_eq_true_2 by exact Hlt.
    destruct (lookup_lt_is_Some_2 _ _ Hlt) as [entry Hentry].
    rewrite Hentry, (drop_lookup_cons _ _ _ Hentry). cbn [takeWhile].
    unfold beforeWindowEnd at 1.
    destruct (Num.geb_bound (cumulativeStartTime entry) (endTime (timeWindow e))) eqn:Hwin.
    { exists e. cbn [flat_map]. rewrite ?app_nil_r.
      repeat split; try assumption; try reflexivity; lia. }
    cbn [negb flat_map].
    destruct (playEntry_live c e entry Hlive)
      as (e1 & Hrun & Hlive1 & Hents1 & Htw1 & Hidx1 & Hrate1 & Hel1 & Hobs1).
    pose proof Hlive1 as (Hc1 & Hna1 & Hplay1 & Hpause1).
    unfold mbind at 1, Run_bind at 1. rewrite Hrun.
    unfold mbind at 1, Run_bind at 1, ask at 1.
    unfold aborted at 1. rewrite Hc1, (bool_decide_eq_false_2 _ Hna1).
    rewrite Hents1, Hidx1, Nat.add_1_r.
    destruct (entries e !! S (currentEntryIndex (state e))) as [nextEntry|] eqn:Hnext.
    2:{ exists e1. rewrite (drop_ge (entries e)) by (apply lookup_ge_None; exact Hnext).
        cbn [flat_map]. rewrite ?app_nil_r.
        repeat split; try assumption; try reflexivity; lia. }
    rewrite (drop_lookup_cons _ _ _ Hnext). cbn [takeWhile].
    unfold beforeWindowEnd at 1. rewrite Htw1.
    destruct (Num.geb_bound (cumulativeStartTime nextEntry) (endTime (timeWindow e)))
      eqn:Hwin'.
    { exists e1. cbn [flat_map]. rewrite ?app_nil_r.
      repeat split; try assumption; try reflexivity; lia. }
    cbn [negb].
    unfold mbind at 1, Run_bind at 1, act at 1.
    set (e2 := notifyEntryChange
                 (set_state (set_currentEntryIndex (S (currentEntryIndex (state e)))
                                                   (state e1)) e1)).
    assert (He2 : entries e2 = entries e /\ timeWindow e2 = timeWindow e /\
                  currentEntryIndex (state e2) = S (currentEntryIndex (state e)) /\
                  playbackRate (state e2) = playbackRate (state e) /\
                  elapsedTime (state e2) = elapsedTime (state e) /\
                  observe (events e2) = observe (events e1) /\ live c e2).
    { unfold e2, notifyEntryChange, getCurrentEntry, live.
      destruct e1 as [ents1 tw1 [pl1 pa1 idx1 ph1 el1 rate1] ac1 ab1 cm1 ti1 evs1].
      cbn in *. destruct (ents1 !! _); cbn; rewrite ?observe_app, ?app_nil_r;
        repeat split; assumption. }
    destruct He2 as (Hents2 & Htw2 & Hidx2 & Hrate2 & Hel2 & Hobs2 & Hlive2).
    destruct (IH e2 Hlive2) as (e' & Hrun' & Hlive' & Hents' & Htw' & Hrate' & Hel' & Hmono' & Hobs').
    { rewrite Hents2, Hidx2. lia. }
    exists e'. split; [exact Hrun'|]. split; [exact Hlive'|].
    rewrite Hents', Htw', Hrate', Hel', Hobs', Hobs2, Hobs1, Hents2, Htw2, Hidx2, Hrate2.
    rewrite (drop_lookup_cons _ _ _ Hnext). cbn [takeWhile].
    assert (Hb : beforeWindowEnd (timeWindow e) nextEntry = true)
      by (unfold beforeWindowEnd; rewrite Hwin'; reflexivity).
    rewrite Hb. cbn [flat_map].
    rewrite <- !app_assoc. repeat split; try assumption; try reflexivity; lia.
Qed.

Lemma takeWhile_all {A} (p : A -> bool) (xs : list A) :
  (forall x, x ∈ xs -> p x = true) -> takeWhile p xs = xs.
Proof.
  induction xs as [|x xs IH]; intros H; [reflexivity|]. cbn.
  rewrite H by left. f_equal. apply IH. intros y Hy. apply H. right. exact Hy.
Qed.

Lemma phasesOf_traces rate (es : list FlashcardEntry) :
  phasesOf (flat_map (entryTrace rate) es ++ [SawComplete]) =
  flat_map (fun _ => sixPhases) es.
Proof. induction es as [|e es IH]; [reflexivity|]. cbn. rewrite <- IH. reflexivity. Qed.

Lemma stop_fields (e : Engine) :
  state (stop e) =
    mkState false false (currentEntryIndex (state e)) idle
            (elapsedTime (state e)) (playbackRate (state e)) /\
  abortController (stop e) = None /\
  timeUpdateInterval (stop e) = false /\
  entries (stop e) = entries e /\
  timeWindow (stop e) = timeWindow e /\
  observe (events (stop e)) = observe (events e).
Proof.
  unfold stop, notifyStateChange, stopTimeTracking, abortCurrent.
  destruct e as [ents tw st ac ab cm ti evs]; destruct ac, ti; cbn;
    rewrite !observe_app, !app_nil_r; repeat split.
Qed.

Lemma play_session_run (e : Engine) :
  isPlaying (state e) = false ->
  isPaused (state e) = false ->
  entries e <> [] ->
  (controllersMade e ∉ abortedSignals e) ->
  exists e',
    play tts e = Some (Ok tt, e') /\
    observe (events e') =
      (observe (events e) ++
       flat_map (entryTrace (playbackRate (state e)))
         (takeWhile (beforeWindowEnd (timeWindow e))
                    (drop (currentEntryIndex (state e)) (entries e))) ++
       [SawComplete])%list /\
    state e' = mkState false false (currentEntryIndex (state e')) idle
                       (elapsedTime (state e)) (playbackRate (state e)) /\
    (currentEntryIndex (state e) <= currentEntryIndex (state e'))%nat /\
    abortController e' = None.
Proof.
  intros Hplay Hpause Hne Hfresh.
  unfold play. unfold mbind at 1, Run_bind at 1, ask at 1.
  rewrite Hpause, Hplay.
  destruct (entries e) as [|x xs] eqn:Hents; [contradiction|].
  cbn [List.length Nat.eqb]. rewrite <- Hents.
  unfold mbind at 1, Run_bind at 1, act at 1.
  set (e0 := notifyStateChange _).
  assert (H0 : live (controllersMade e) e0 /\ entries e0 = entries e /\
               timeWindow e0 = timeWindow e /\
               currentEntryIndex (state e0) = currentEntryIndex (state e) /\
               playbackRate (state e0) = playbackRate (state e) /\
               elapsedTime (state e0) = elapsedTime (state e) /\
               observe (events e0) = observe (events e)).
  { unfold e0, live, notifyStateChange, startTimeTracking, newAbortController.
    destruct e as [ents tw [pl pa idx ph el rate] ac ab cm ti evs]. cbn in *.
    destruct ti; cbn; rewrite observe_app, app_nil_r; repeat split; assumption. }
  clearbody e0. destruct H0 as (Hlive0 & Hents0 & Htw0 & Hidx0 & Hrate0 & Hel0 & Hobs0).
  unfold catch, playFromCurrent. unfold mbind at 1, Run_bind at 1, ask at 1.
  unfold mbind at 1, Run_bind at 1.
  destruct (playLoop_live (controllersMade e) (List.length (entries e0)) e0 Hlive0)
    as (e1 & Hrun & Hlive1 & Hents1 & Htw1 & Hrate1 & Hel1 & Hmono1 & Hobs1); [lia|].
  rewrite Hrun. destruct Hlive1 as (Hc1 & Hna1 & Hplay1 & Hpause1).
  unfold mbind at 1, Run_bind at 1, ask at 1, aborted.
  rewrite Hc1, (bool_decide_eq_false_2 _ Hna1). cbn [negb].
  unfold mbind, Run_bind, act. eexists. split; [reflexivity|].
  destruct (stop_fields e1) as (Hst & Hac & _ & _ & _ & Hobs).
  cbn [events emit state abortController]. rewrite observe_app, Hobs, Hobs1, Hobs0.
  rewrite Hst, Hel1, Hel0, Hrate1, Hrate0, Htw0, Hidx0, Hents0. cbn [currentEntryIndex].
  rewrite <- app_assoc. repeat split; try assumption; lia.
Qed.

(** C4. A non-empty list played on a new engine by a service that plays
    every fragment to its end, with no call of the engine in between: the
    engine goes through the entries in the order of the list, through the
    six phases of each (English word, pause, Spanish word, pause, Spanish
    sentence, pause) in this order, and after the last pause of the last
    entry it calls [onComplete], once; it is idle then. *)
Theorem play_emits_six_phases_per_entry_then_completes
        (entries : list FlashcardEntry) :
  entries <> [] ->
  exists e',
    play tts (setEntries entries create) = Some (Ok tt, e') /\
    observe (events e') = (flat_map (entryTrace 1) entries ++ [SawComplete])%list /\
    phasesOf (observe (events e')) = flat_map (fun _ => sixPhases) entries /\
    isPlaying (state e') = false /\
    currentPhase (state e') = idle.
Proof.
  intros Hne.
  destruct (play_session_run (setEntries entries create))
    as (e' & Hrun & Hobs & Hst & _ & _); try reflexivity; try exact Hne.
  { cbn. intros H. inversion H. }
  exists e'. split; [exact Hrun|].
  assert (Hall : takeWhile (beforeWindowEnd (timeWindow (setEntries entries create)))
                   (drop (currentEntryIndex (state (setEntries entries create)))
                         (PlaybackEngine.entries (setEntries entries create)))
                 = entries).
  { cbn. apply takeWhile_all. intros x _. reflexivity. }
  rewrite Hall in Hobs. cbn in Hobs.
  split; [exact Hobs|]. rewrite Hobs, Hst. split; [apply phasesOf_traces|].
  split; reflexivity.
Qed.

End SessionFacts.

Lemma play_emits_six_phases_witness :
  exists e',
    PlaybackEngine.play ttsAlwaysPlays
      (PlaybackEngine.setEntries twoEntries PlaybackEngine.create) = Some (Ok tt, e') /\
    observe (PlaybackEngine.events e') =
      (flat_map (entryTrace 1) twoEntries ++ [SawComplete])%list /\
    phasesOf (observe (PlaybackEngine.events e')) =
      flat_map (fun _ => sixPhases) twoEntries /\
    PlaybackEngine.isPlaying (PlaybackEngine.state e') = false /\
    PlaybackEngine.currentPhase (PlaybackEngine.state e') = PlaybackEngine.idle.
Proof.
  apply (play_emits_six_phases_per_entry_then_completes ttsAlwaysPlays).
  - reflexivity.
  - vm_compute. discriminate.
Defined.


(** ** The playback engine: pausing during a pause phase *)

Section PauseTimingFacts.

Import PlaybackEngine.
Local Open Scope Q_scope.

Lemma isPaused_between (e : Engine) (p r t : Q) :
  isPlaying (state e) = true -> isPaused (state e) = false ->
  isPaused (state (engineAt e [(p, PressPause); (r, PressResume)] t)) =
  Qle_bool p t && negb (Qle_bool r t).
Proof.
  intros Hplay Hpause. unfold engineAt. cbn [fold_left fst snd control].
  destruct e as [ents tw [pl pa idx ph el rate] ac ab cm ti evs].
  cbn in Hplay, Hpause. subst pl pa.
  destruct (Qle_bool p t), (Qle_bool r t); cbn; try reflexivity;
    destruct ti; reflexivity.
Qed.

Lemma ofNat_S (n : nat) : Num.ofNat (S n) == Num.ofNat n + 1.
Proof.
  unfold Num.ofNat. rewrite Nat2Z.inj_succ, <- Z.add_1_r, inject_Z_plus. reflexivity.
Qed.

(** The polls of [waitWhilePaused], entered at [t] while the engine is
    paused since [p]: it returns at the first poll at or after the resume
    at [r]. *)
Lemma waitWhilePaused_polls (e : Engine) (p r : Q) :
  isPlaying (state e) = true -> isPaused (state e) = false ->
  forall (n : nat) (t : Q),
    p <= t -> r <= t + 100 * Num.ofNat n ->
    exists (k : nat) (t' : Q),
      waitWhilePausedFrom e [(p, PressPause); (r, PressResume)] n t = Some t' /\
      t' == t + 100 * Num.ofNat k /\
      r <= t' /\
      ((0 < k)%nat -> t < r /\ t' < r + 100).
Proof.
  intros Hplay Hpause. induction n as [|n IH]; intros t Hp Hr.
  - exists 0%nat, t. cbn [waitWhilePausedFrom].
    rewrite (isPaused_between e p r t Hplay Hpause).
    assert (Hrt : r <= t) by (change (Num.ofNat 0) with 0 in Hr; lra).
    rewrite (proj2 (Qle_bool_iff r t) Hrt), andb_false_r.
    split; [reflexivity|]. change (Num.ofNat 0) with 0.
    split; [lra|]. split; [exact Hrt|]. intros H. inversion H.
  - cbn [waitWhilePausedFrom]. rewrite (isPaused_between e p r t Hplay Hpause).
    rewrite (proj2 (Qle_bool_iff p t) Hp). cbn [andb].
    destruct (Qle_bool r t) eqn:Hrt; cbn [negb].
    + apply Qle_bool_iff in Hrt. exists 0%nat, t.
      split; [reflexivity|]. change (Num.ofNat 0) with 0.
      split; [lra|]. split; [exact Hrt|]. intros H. inversion H.
    + assert (Hlt : t < r).
      { apply Qnot_le_lt. intros H. apply Qle_bool_iff in H. congruence. }
      destruct (IH (t + 100)) as (k & t' & Hrun & Heq & Hge & Hk).
      * lra.
      * rewrite ofNat_S in Hr. lra.
      * exists (S k), t'. split; [exact Hrun|]. rewrite ofNat_S.
        split; [lra|]. split; [exact Hge|]. intros _.
        split; [exact Hlt|]. destruct k as [|k].
        -- change (Num.ofNat 0) with 0 in Heq. lra.
        -- destruct Hk as [Hk1 Hk2]; [lia|]. exact Hk2.
Qed.

Lemma polls_enough (d : Q) : 0 <= d -> d <= 100 * Num.ofNat (Z.to_nat (Qceiling (d / 100))).
Proof.
  intros Hd. unfold Num.ofNat.
  assert (Hx : d == d / 100 * 100) by field.
  pose proof (Qle_ceiling (d / 100)) as Hc.
  assert (H0 : (0 <= Qceiling (d / 100))%Z).
  { change 0%Z with (Qceiling 0). apply Qceiling_resp_le. lra. }
  rewrite Z2Nat.id by exact H0. lra.
Qed.

(** C6, as the claim states it, fails: the first pause of an entry at rate
    1 is scheduled for 1500 ms; paused at 1000 ms and resumed at 1950 ms,
    the phase lasts 2000 ms, of which 1050 ms unpaused. *)
Lemma pause_past_the_deadline_extends_the_phase :
  let scheduled := TimeUtils.PAUSE_AFTER_ENGLISH * 1000 / playbackRate (state midSession) in
  let calls := [(1000, PressPause); (1950, PressResume)] in
  scheduled == 1500 /\
  exists t,
    delayEnd midSession calls 10 0 scheduled = Some t /\
    t == 2000 /\
    ~ (t - 0 == scheduled) /\
    ~ ((t - 0) - (1950 - 1000) == scheduled).
Proof.
  cbv zeta. split; [reflexivity|].
  eexists. split; [vm_compute; reflexivity|].
  split; [reflexivity|]. split; intros H; vm_compute in H; discriminate.
Qed.

(** C6, amended. No call of the engine stops or moves the timer of a
    pause phase, so the time spent paused counts as time of the phase.
    With a pause at [p] and a resume at [r] in a phase that starts at [t0]
    and is scheduled to last [ms]: when the resume comes before the timer
    is due, the phase ends when the timer is due, [ms] after its start;
    when the engine is still paused at that instant, the phase ends at the
    first of the polls, made every 100 ms from then on, that follows the
    resume, less than 100 ms after it. *)
Theorem pause_does_not_hold_the_phase_timer
        (e : Engine) (t0 ms p r : Q) :
  isPlaying (state e) = true -> isPaused (state e) = false ->
  0 < ms -> t0 <= p -> p < r ->
  let calls := [(p, PressPause); (r, PressResume)] in
  (r <= t0 + ms ->
     forall polls, delayEnd e calls polls t0 ms = Some (t0 + ms)) /\
  (p <= t0 + ms -> t0 + ms < r ->
     exists (polls k : nat) (t : Q),
       delayEnd e calls polls t0 ms = Some t /\
       (0 < k)%nat /\
       t == t0 + ms + 100 * Num.ofNat k /\
       r <= t /\ t < r + 100).
Proof.
  intros Hplay Hpause Hms Hp Hpr. cbv zeta. split.
  - intros Hr polls. unfold delayEnd.
    destruct polls as [|polls]; cbn [waitWhilePausedFrom];
      rewrite (isPaused_between e p r _ Hplay Hpause),
              (proj2 (Qle_bool_iff r (t0 + ms)) Hr), andb_false_r; reflexivity.
  - intros Hdue Hlate. unfold delayEnd.
    set (n := Z.to_nat (Qceiling ((r - (t0 + ms)) / 100))).
    destruct (waitWhilePaused_polls e p r Hplay Hpause n (t0 + ms) Hdue)
      as (k & t & Hrun & Heq & Hge & Hk).
    { pose proof (polls_enough (r - (t0 + ms))) as H. fold n in H. lra. }
    exists n, k, t. split; [exact Hrun|].
    assert (Hk0 : (0 < k)%nat).
    { destruct k as [|k]; [|lia]. change (Num.ofNat 0) with 0 in Heq. lra. }
    destruct (Hk Hk0) as [_ Hlt]. repeat split; assumption.
Qed.

Lemma pause_timer_witness :
  let calls := [(500, PressPause); (1000, PressResume)] in
  (1000 <= 0 + 1500 ->
     forall polls, delayEnd midSession calls polls 0 1500 = Some (0 + 1500)) /\
  (500 <= 0 + 1500 -> 0 + 1500 < 1000 ->
     exists (polls k : nat) (t : Q),
       delayEnd midSession calls polls 0 1500 = Some t /\
       (0 < k)%nat /\
       t == 0 + 1500 + 100 * Num.ofNat k /\
       1000 <= t /\ t < 1000 + 100).
Proof.
  apply (pause_does_not_hold_the_phase_timer midSession 0 1500 500 1000);
    first [reflexivity | (unfold Qlt, Qle; cbn; lia)].
Defined.

End PauseTimingFacts.

(** ** The export pipeline *)

Section ExportFacts.

Import AudioExporter.

(** C9 at a failing input: one entry, nothing cached, and a gateway that
    fails on the second fragment.  The export returns a failure with the
    gateway's message and writes no output file, but the three silence
    files and the temporary file of the first fragment are still in the
    temporary directory when it returns. *)
Theorem export_failure_leaves_temporary_files :
  let '(result, w') :=
    exportAudioFile ffmpegFinishes gatewayFailsOnGato oneEntry "animals.txt" 1
                    "20260101-120000" exportWorld0 in
  result = Ok (mkResult false None (Some "quota exceeded")) /\
  names (tempFiles exportWorld0) = [] /\
  names (tempFiles w') =
    ["silence-1.50s.mp3"; "silence-1.00s.mp3"; "silence-0.80s.mp3"; "temp-en-0.mp3"] /\
  names (outputFiles w') = [].
Proof. vm_compute. repeat split; reflexivity. Qed.

(** The same entry with a gateway that answers: the export succeeds and
    the temporary directory is empty again. *)
Example export_success_cleans_up :
  let '(result, w') :=
    exportAudioFile ffmpegFinishes gatewayAnswers oneEntry "animals.txt" 1
                    "20260101-120000" exportWorld0 in
  result = Ok (mkResult true (Some (InOutput "animals-export-20260101-120000.mp3")) None) /\
  names (tempFiles w') = [] /\
  names (outputFiles w') = ["animals-export-20260101-120000.mp3"].
Proof. vm_compute. repeat split; reflexivity. Qed.

End ExportFacts.

(** ** The cache as its users see it *)

Section CacheFacts.

Import TtsHandler.

Lemma synthesizeSpeech_miss_success gateway w text language voiceId chunks :
  is_Some (client w) ->
  files w !! blobOf text language voiceId = None ->
  gateway (requestOf text language voiceId) = Stream chunks None ->
  let audio := List.concat chunks in
  let we := if dirExists w then w else set_dirExists true w in
  let w0 := set_requests (requests w ++ [requestOf text language voiceId])%list we in
  let index :=
    mkCacheIndex (version (cacheIndex w))
      (<[keyOf text language voiceId :=
           mkCacheEntry text (selectVoice voiceId language) (localeOf language)
                        (clock w) (List.length audio) (clock w)]>
         (entries (cacheIndex w))) in
  synthesizeSpeech gateway text language voiceId w =
  (Ok (dataUrl audio),
   set_indexFile (Some (Json index))
     (set_cacheIndex index
        (set_files (<[blobOf text language voiceId := audio]> (files w)) w0))).
Proof.
  intros Hc Hm Hg. cbv zeta.
  unfold synthesizeSpeech, mbind, M_bind.
  rewrite (synthesizeStart_miss w text language voiceId Hc Hm).
  cbn [pVoice pText]. fold (requestOf text language voiceId). rewrite Hg.
  destruct (ensured_fields w) as (Hd & Hf & Hi & Hx & Hr & Hk & Hcl & _).
  cbv zeta in *.
  rewrite synthesizeFinish_success by (cbn; exact Hd).
  cbn. rewrite Hi, Hk, Hf. reflexivity.
Qed.

(** A miss stores what the gateway sent: the blob holds the chunks in
    order, the index gets one entry for the fingerprint with the size of
    the audio and the time of the call, the index file is the index, and
    the statistics count one more file when the fingerprint is new to the
    index and the same number when it was listed already. *)
Theorem miss_stores_audio_and_one_index_entry
        (gateway : Request -> Response) (w : World)
        (text : string) (language : Lang) (voiceId : option string)
        (chunks : list Buffer) :
  is_Some (client w) ->
  files w !! blobOf text language voiceId = None ->
  gateway (requestOf text language voiceId) = Stream chunks None ->
  exists w',
    synthesizeSpeech gateway text language voiceId w =
      (Ok (dataUrl (List.concat chunks)), w') /\
    files w' = <[blobOf text language voiceId := List.concat chunks]> (files w) /\
    entries (cacheIndex w') !! keyOf text language voiceId =
      Some (mkCacheEntry text (selectVoice voiceId language) (localeOf language)
                         (clock w) (List.length (List.concat chunks)) (clock w)) /\
    (forall k, k <> keyOf text language voiceId ->
       entries (cacheIndex w') !! k = entries (cacheIndex w) !! k) /\
    indexFile w' = Some (Json (cacheIndex w')) /\
    size (entries (cacheIndex w')) =
      (if decide (is_Some (entries (cacheIndex w) !! keyOf text language voiceId))
       then size (entries (cacheIndex w))
       else S (size (entries (cacheIndex w)))).
Proof.
  intros Hc Hm Hg. eexists. split.
  - apply synthesizeSpeech_miss_success; assumption.
  - cbn. split; [reflexivity|]. split; [apply lookup_insert_eq|].
    split; [intros k Hk; apply lookup_insert_ne; congruence|].
    split; [reflexivity|].
    destruct (decide (is_Some _)) as [[v Hv]|Hn].
    + apply map_size_insert_Some. eexists; exact Hv.
    + apply map_size_insert_None. destruct (entries _ !! _) eqn:E; [|reflexivity].
      exfalso. apply Hn. eexists; reflexivity.
Qed.

Lemma miss_stores_witness :
  exists w',
    synthesizeSpeech gatewayAnswers "hola" es None world0 =
      (Ok (dataUrl (List.concat [sampleAudio])), w') /\
    files w' = <[blobOf "hola" es None := List.concat [sampleAudio]]> (files world0) /\
    entries (cacheIndex w') !! keyOf "hola" es None =
      Some (mkCacheEntry "hola" (selectVoice None es) (localeOf es)
                         (clock world0) (List.length (List.concat [sampleAudio]))
                         (clock world0)) /\
    (forall k, k <> keyOf "hola" es None ->
       entries (cacheIndex w') !! k = entries (cacheIndex world0) !! k) /\
    indexFile w' = Some (Json (cacheIndex w')) /\
    size (entries (cacheIndex w')) =
      (if decide (is_Some (entries (cacheIndex world0) !! keyOf "hola" es None))
       then size (entries (cacheIndex world0))
       else S (size (entries (cacheIndex world0)))).
Proof.
  apply (miss_stores_audio_and_one_index_entry gatewayAnswers world0 "hola" es None
           [sampleAudio]).
  - eexists; reflexivity.
  - reflexivity.
  - reflexivity.
Defined.

(** A call whose blob is in the cache returns the blob's data URL without
    calling the gateway, whatever the gateway would answer.  It changes
    neither the blobs nor the number of index entries; of the entry of the
    fingerprint it changes the time of last access only. *)
Theorem hit_returns_blob_without_gateway
        (gateway : Request -> Response) (w : World)
        (text : string) (language : Lang) (voiceId : option string)
        (audio : Buffer) :
  is_Some (client w) ->
  files w !! blobOf text language voiceId = Some audio ->
  exists w',
    synthesizeSpeech gateway text language voiceId w = (Ok (dataUrl audio), w') /\
    requests w' = requests w /\
    files w' = files w /\
    size (entries (cacheIndex w')) = size (entries (cacheIndex w)) /\
    (forall k, k <> keyOf text language voiceId ->
       entries (cacheIndex w') !! k = entries (cacheIndex w) !! k) /\
    (forall e, entries (cacheIndex w) !! keyOf text language voiceId = Some e ->
       entries (cacheIndex w') !! keyOf text language voiceId =
       Some (mkCacheEntry (TtsHandler.text e) (TtsHandler.voiceId e) (languageCode e)
                          (timestamp e) (fileSize e) (clock w))).
Proof.
  intros Hc Hh.
  destruct (synthesizeStart_hit w text language voiceId audio Hc Hh)
    as (w' & Hs & Hf & Hr & _ & _ & _ & _ & He).
  exists w'. split.
  - unfold synthesizeSpeech, mbind, M_bind. rewrite Hs. reflexivity.
  - split; [exact Hr|]. split; [exact Hf|]. rewrite He.
    destruct (entries (cacheIndex w) !! keyOf text language voiceId) as [e|] eqn:E.
    + split; [apply map_size_insert_Some; eexists; exact E|].
      split; [intros k Hk; apply lookup_insert_ne; congruence|].
      intros e' [= <-]. apply lookup_insert_eq.
    + split; [reflexivity|]. split; [reflexivity|]. intros e' H. discriminate.
Qed.

Lemma hit_returns_blob_witness :
  exists w',
    synthesizeSpeech (fun _ => ConvertError "unreachable") "hola" es None warmWorld
      = (Ok (dataUrl sampleAudio), w') /\
    requests w' = requests warmWorld /\
    files w' = files warmWorld.
Proof.
  destruct (hit_returns_blob_without_gateway (fun _ => ConvertError "unreachable")
              warmWorld "hola" es None sampleAudio)
    as (w' & H1 & H2 & H3 & _).
  - eexists; reflexivity.
  - vm_compute. reflexivity.
  - exists w'. repeat split; assumption.
Defined.

(** Without an API key [synthesizeSpeech] throws before it touches the
    cache directory, the index or the gateway: the world is unchanged. *)
Theorem unconfigured_synthesis_throws_and_changes_nothing
        (gateway : Request -> Response) (w : World)
        (text : string) (language : Lang) (voiceId : option string) :
  client w = None ->
  synthesizeSpeech gateway text language voiceId w =
  (Throw "ElevenLabs API key not configured", w).
Proof.
  intros Hc. unfold synthesizeSpeech, mbind, M_bind.
  rewrite synthesizeStart_unconfigured by exact Hc. reflexivity.
Qed.

Lemma unconfigured_synthesis_witness :
  synthesizeSpeech gatewayAnswers "hola" es None (set_client None world0) =
  (Throw "ElevenLabs API key not configured", set_client None world0).
Proof.
  apply (unconfigured_synthesis_throws_and_changes_nothing
           gatewayAnswers (set_client None world0) "hola" es None).
  reflexivity.
Defined.

(** *** The API key *)



Example setApiKey_trims :
  fst (getApiKey (snd (setApiKey "  sk-live-42  " world0))) = Ok (Some "sk-live-42") /\
  fst (setApiKey "   " world0) = Ok false.
Proof. vm_compute. split; reflexivity. Qed.

(** *** The statistics *)

Lemma fold_min_le (now : Z) (es : list CacheEntry) :
  let oldest := fold_left (fun min e => if (timestamp e <? min)%Z then timestamp e else min)
                          es now in
  (oldest <= now)%Z /\ (forall e, In e es -> (oldest <= timestamp e)%Z) /\
  (oldest = now \/ exists e, In e es /\ oldest = timestamp e).
Proof.
  cbv zeta. revert now. induction es as [|x es IH]; intros now; cbn.
  - split; [lia|]. split; [intros e []|left; reflexivity].
  - destruct (Z.ltb_spec (timestamp x) now) as [Hlt|Hge].
    + destruct (IH (timestamp x)) as (H1 & H2 & H3). split; [lia|]. split.
      * intros e [<-|He]; [exact H1|apply H2; exact He].
      * right. destruct H3 as [->|(e & He & ->)]; [exists x|exists e]; auto.
    + destruct (IH now) as (H1 & H2 & H3). split; [exact H1|]. split.
      * intros e [<-|He]; [lia|apply H2; exact He].
      * destruct H3 as [H3|(e & He & H3)]; [left; exact H3|right; exists e; auto].
Qed.

Lemma fold_max_ge (floor : Z) (es : list CacheEntry) :
  let newest := fold_left (fun max e => if (timestamp e >? max)%Z then timestamp e else max)
                          es floor in
  (floor <= newest)%Z /\ (forall e, In e es -> (timestamp e <= newest)%Z).
Proof.
  cbv zeta. revert floor. induction es as [|x es IH]; intros floor; cbn.
  - split; [lia|]. intros e [].
  - destruct (Z.gtb_spec (timestamp x) floor) as [Hgt|Hle].
    + destruct (IH (timestamp x)) as (H1 & H2). split; [lia|].
      intros e [<-|He]; [exact H1|apply H2; exact He].
    + destruct (IH floor) as (H1 & H2). split; [exact H1|].
      intros e [<-|He]; [lia|apply H2; exact He].
Qed.

(** [getCacheStats] reads the index only.  It counts the entries of the
    index; for an index that is not empty the oldest instant it reports is
    not after any entry's timestamp nor after the present, and the newest
    is not before any entry's timestamp; for an empty index both are
    [null] and the counts are zero. *)
Theorem getCacheStats_counts_and_bounds (w : World) :
  exists st,
    getCacheStats w = (Ok st, w) /\
    totalFiles st = size (entries (cacheIndex w)) /\
    (entries (cacheIndex w) = ∅ ->
       totalSize st = 0%nat /\ oldestEntry st = None /\ newestEntry st = None) /\
    (entries (cacheIndex w) <> ∅ ->
       exists oldest newest,
         oldestEntry st = Some oldest /\ newestEntry st = Some newest /\
         (oldest <= clock w)%Z /\
         (forall k e, entries (cacheIndex w) !! k = Some e ->
                      (oldest <= timestamp e <= newest)%Z)).
Proof.
  unfold getCacheStats, mbind, M_bind, get, mret, M_ret.
  assert (Hlen : List.length (List.map snd (map_to_list (entries (cacheIndex w))))
                 = size (entries (cacheIndex w))).
  { rewrite length_map. apply length_map_to_list. }
  destruct (Nat.eqb_spec (List.length (List.map snd (map_to_list (entries (cacheIndex w))))) 0)
    as [H0|Hn].
  - eexists. split; [reflexivity|]. cbn. split; [lia|]. split; [intros _; repeat split|].
    intros Hne. exfalso. apply Hne. apply map_size_empty_iff. lia.
  - eexists. split; [reflexivity|]. cbn. split; [exact Hlen|]. split.
    + intros He. rewrite He, map_to_list_empty in Hn. contradiction.
    + intros _. eexists. eexists. split; [reflexivity|]. split; [reflexivity|].
      pose proof (fold_min_le (clock w)
                    (List.map snd (map_to_list (entries (cacheIndex w))))) as (H1 & H2 & _).
      pose proof (fold_max_ge 0%Z
                    (List.map snd (map_to_list (entries (cacheIndex w))))) as (_ & H4).
      split; [exact H1|]. intros k e Hk.
      assert (Hin : In e (List.map snd (map_to_list (entries (cacheIndex w))))).
      { apply in_map_iff. exists (k, e). split; [reflexivity|].
        apply list_elem_of_In, elem_of_map_to_list. exact Hk. }
      split; [apply H2|apply H4]; exact Hin.
Qed.

(** *** The index file *)



End CacheFacts.

(** ** The transport controls *)

Section TransportControls.

Import PlaybackEngine.
Local Open Scope Q_scope.

(** [setRate] keeps the rate between 0.5 and 2: a rate in that range is
    taken as it is, a lower one becomes 0.5, a higher one 2.  Nothing but
    the rate changes. *)
Theorem setRate_clamps (rate : Q) (e : Engine) :
  let r := playbackRate (state (setRate rate e)) in
  (1 # 2) <= r /\ r <= 2 /\
  ((1 # 2) <= rate -> rate <= 2 -> r == rate) /\
  (rate < (1 # 2) -> r = (1 # 2)) /\
  (2 < rate -> r = 2) /\
  set_playbackRate (playbackRate (state e)) (state (setRate rate e)) = state e /\
  entries (setRate rate e) = entries e.
Proof.
  cbv zeta. unfold setRate, notifyStateChange. cbn.
  assert (Hst : forall r, set_playbackRate (playbackRate (state e))
                            (set_playbackRate r (state e)) = state e)
    by (intros r; destruct (state e); reflexivity).
  unfold Num.max, Num.min.
  destruct (Qle_bool 2 rate) eqn:H2.
  - apply Qle_bool_iff in H2. change (Qle_bool (1 # 2) 2) with true. cbv iota.
    split; [lra|]. split; [lra|]. split; [intros; lra|].
    split; [intros; lra|]. split; [reflexivity|]. split; [apply Hst|reflexivity].
  - assert (Hlt : rate < 2).
    { apply Qnot_le_lt. intros H. apply Qle_bool_iff in H. congruence. }
    destruct (Qle_bool (1 # 2) rate) eqn:H1.
    + apply Qle_bool_iff in H1.
      split; [lra|]. split; [lra|]. split; [intros; reflexivity|].
      split; [intros; lra|]. split; [intros; lra|]. split; [apply Hst|reflexivity].
    + assert (Hlt' : rate < 1 # 2).
      { apply Qnot_le_lt. intros H. apply Qle_bool_iff in H. congruence. }
      split; [lra|]. split; [lra|]. split; [intros; lra|].
      split; [reflexivity|]. split; [intros; lra|]. split; [apply Hst|reflexivity].
Qed.

(** [pause] acts on an engine that plays and is not paused, and on no
    other; [resume] acts on a paused engine, and on no other.  A pause
    followed by a resume gives back the state the engine had, with the time
    interval set. *)
Theorem pause_then_resume_restores_the_state (e : Engine) :
  (isPlaying (state e) = true -> isPaused (state e) = false ->
     isPaused (state (pause e)) = true /\
     timeUpdateInterval (pause e) = false /\
     state (resume (pause e)) = state e /\
     timeUpdateInterval (resume (pause e)) = true /\
     pause (pause e) = pause e) /\
  (isPlaying (state e) = false -> pause e = e) /\
  (isPaused (state e) = true -> pause e = e) /\
  (isPaused (state e) = false -> resume e = e).
Proof.
  destruct e as [ents tw [pl pa idx ph el rate] ac ab cm ti evs]. cbn.
  split; [|split; [|split]].
  - intros -> ->. destruct ti; cbn; repeat split.
  - intros ->. reflexivity.
  - intros ->. destruct pl; reflexivity.
  - intros ->. reflexivity.
Qed.

Lemma pause_then_resume_witness :
  state (resume (pause midSession)) = state midSession.
Proof.
  apply (pause_then_resume_restores_the_state midSession); reflexivity.
Defined.

End TransportControls.

(** ** Sessions: the window, failures, and moves between entries *)

Section SessionEdges.

Import PlaybackEngine.



(** [play] on an engine that plays and is not paused does nothing: no
    second session starts.  On a paused engine it is [resume].  On an idle
    engine without entries it does nothing. *)
Theorem play_starts_no_second_session
        (tts : string -> Lang -> Q -> Res unit) (e : Engine) :
  (isPlaying (state e) = true -> isPaused (state e) = false ->
     play tts e = Some (Ok tt, e)) /\
  (isPaused (state e) = true -> play tts e = Some (Ok tt, resume e)) /\
  (isPlaying (state e) = false -> isPaused (state e) = false -> entries e = [] ->
     play tts e = Some (Ok tt, e)).
Proof.
  unfold play, mbind, Run_bind, ask, act, mret, Run_ret. repeat split.
  - intros -> ->. reflexivity.
  - intros ->. reflexivity.
  - intros -> -> ->. reflexivity.
Qed.

Lemma playLoop_rejected (tts : string -> Lang -> Q -> Res unit) c fuel e entry message :
  live c e ->
  entries e !! currentEntryIndex (state e) = Some entry ->
  beforeWindowEnd (timeWindow e) entry = true ->
  tts (englishWord entry) en (playbackRate (state e)) = Throw message ->
  exists e',
    playLoop tts (S fuel) e = Some (Throw message, e') /\
    isPlaying (state e') = true /\
    currentPhase (state e') = english /\
    timeUpdateInterval e' = timeUpdateInterval e /\
    observe (events e') =
      (observe (events e) ++ [SawPhase english; SawSpeak (englishWord entry) en])%list.
Proof.
  intros (Hc & Hna & Hplay & Hpause) Hentry Hwin Htts.
  assert (Hlen : (currentEntryIndex (state e) < List.length (entries e))%nat)
    by (eapply lookup_lt_Some; exact Hentry).
  unfold beforeWindowEnd in Hwin. apply negb_true_iff in Hwin.
  cbn [playLoop]. unfold mbind at 1, Run_bind at 1, ask at 1, aborted at 1.
  rewrite Hplay, Hc, (bool_decide_eq_false_2 _ Hna), (bool_decide_eq_true_2 _ Hlen).
  cbn [negb andb]. rewrite Hentry, Hwin.
  destruct e as [ents tw [pl pa idx ph el rate] ac ab cm ti evs].
  cbn in Hc, Hna, Hplay, Hpause, Htts. subst ac pl pa.
  unfold playEntry, speakWithAbort, setPhase, mbind, Run_bind, ask, act, raise, aborted.
  cbn. rewrite (bool_decide_eq_false_2 _ Hna). cbn. rewrite Htts. cbn.
  eexists. split; [reflexivity|]. cbn.
  rewrite !observe_app. cbn. rewrite ?app_nil_r, <- ?app_assoc.
  repeat split; reflexivity.
Qed.

(** When the service rejects the first fragment of the current entry, the
    session ends there: [play] returns without an error, [onComplete] is
    not called, and the engine is left playing, in the phase of the
    English word, with its time interval set. *)
Theorem rejected_speech_leaves_the_engine_playing
        (tts : string -> Lang -> Q -> Res unit) (e : Engine)
        (entry : FlashcardEntry) (message : string) :
  isPlaying (state e) = false ->
  isPaused (state e) = false ->
  (controllersMade e ∉ abortedSignals e) ->
  entries e !! currentEntryIndex (state e) = Some entry ->
  beforeWindowEnd (timeWindow e) entry = true ->
  tts (englishWord entry) en (playbackRate (state e)) = Throw message ->
  exists e',
    play tts e = Some (Ok tt, e') /\
    isPlaying (state e') = true /\
    currentPhase (state e') = english /\
    timeUpdateInterval e' = true /\
    observe (events e') =
      (observe (events e) ++ [SawPhase english; SawSpeak (englishWord entry) en])%list.
Proof.
  intros Hplay Hpause Hfresh Hentry Hwin Htts.
  assert (Hlen : (currentEntryIndex (state e) < List.length (entries e))%nat)
    by (eapply lookup_lt_Some; exact Hentry).
  unfold play. unfold mbind at 1, Run_bind at 1, ask at 1.
  rewrite Hpause, Hplay.
  rewrite (proj2 (Nat.eqb_neq _ _)) by lia.
  unfold mbind at 1, Run_bind at 1, act at 1.
  set (e0 := notifyStateChange _).
  assert (H0 : live (controllersMade e) e0 /\ entries e0 = entries e /\
               timeWindow e0 = timeWindow e /\
               currentEntryIndex (state e0) = currentEntryIndex (state e) /\
               playbackRate (state e0) = playbackRate (state e) /\
               timeUpdateInterval e0 = true /\
               observe (events e0) = observe (events e)).
  { unfold e0, live, notifyStateChange, startTimeTracking, newAbortController.
    destruct e as [ents tw [pl pa idx ph el rate] ac ab cm ti evs]. cbn in *.
    destruct ti; cbn; rewrite observe_app, app_nil_r; repeat split; assumption. }
  clearbody e0. destruct H0 as (Hlive0 & Hents0 & Htw0 & Hidx0 & Hrate0 & Hti0 & Hobs0).
  unfold catch, playFromCurrent. unfold mbind at 1, Run_bind at 1, ask at 1.
  unfold mbind at 1, Run_bind at 1.
  destruct (List.length (entries e0)) as [|fuel] eqn:Hl; [rewrite Hents0 in Hl; lia|].
  destruct (playLoop_rejected tts (controllersMade e) fuel e0 entry message Hlive0)
    as (e1 & Hrun & Hp1 & Hph1 & Hti1 & Hobs1).
  - rewrite Hents0, Hidx0. exact Hentry.
  - rewrite Htw0. exact Hwin.
  - rewrite Hrate0. exact Htts.
  - rewrite Hrun. exists e1. split; [reflexivity|].
    rewrite Hobs1, Hobs0, Hti1, Hti0. repeat split; assumption.
Qed.

Lemma rejected_speech_witness :
  exists e',
    play ttsAlwaysFails idleWindowed = Some (Ok tt, e') /\
    isPlaying (state e') = true /\
    currentPhase (state e') = english.
Proof.
  destruct (rejected_speech_leaves_the_engine_playing ttsAlwaysFails idleWindowed
              (sampleEntry 2 5 7) "Audio playback failed")
    as (e' & H1 & H2 & H3 & _); try reflexivity.
  - cbn. intros H. inversion H.
  - exists e'. repeat split; assumption.
Defined.

(** *** Moves between entries while no session runs *)








End SessionEdges.

(** ** Durations and the parser, composed *)

Section DurationFacts.

Import FileParser.
Local Open Scope Q_scope.

Lemma estimateEntryDuration_words (a b : FlashcardEntry) rate :
  englishWord a = englishWord b -> spanishWord a = spanishWord b ->
  spanishSentence a = spanishSentence b ->
  TimeUtils.estimateEntryDuration a rate = TimeUtils.estimateEntryDuration b rate.
Proof. unfold TimeUtils.estimateEntryDuration. intros -> -> ->. reflexivity. Qed.

Lemma recalculateFrom_parseLines rate lines i t :
  recalculateFrom rate (parseLines rate lines i t) t = parseLines rate lines i t.
Proof.
  revert i t. induction lines as [|l rest IH]; intros i t; [reflexivity|].
  cbn [parseLines].
  destruct (negb (Str.nonEmpty (Str.trim l))); [apply IH|].
  destruct (matchSeq ENTRY_REGEX (Str.trim l)) as [[|m1 [|m2 [|m3 [|m4 caps]]]]|];
    try apply IH.
  cbn [recalculateFrom id englishWord spanishWord spanishSentence].
  f_equal. apply IH.
Qed.

Lemma recalculateFrom_twice rate rate' entries t t' :
  recalculateFrom rate (recalculateFrom rate' entries t') t = recalculateFrom rate entries t.
Proof.
  revert t t'. induction entries as [|e rest IH]; intros t t'; [reflexivity|].
  cbn [recalculateFrom id englishWord spanishWord spanishSentence].
  rewrite (estimateEntryDuration_words _ e rate) by reflexivity.
  f_equal. apply IH.
Qed.

Lemma recalculateFrom_cards rate entries t :
  Forall2 sameCard entries (recalculateFrom rate entries t).
Proof.
  revert t. induction entries as [|e rest IH]; intros t; cbn; constructor.
  - repeat split.
  - apply IH.
Qed.

(** [recalculateDurations] changes the two times of an entry only: the
    result has the same cards in the same order.  What it computes depends
    on the words and the rate alone, so a second recalculation overrides
    the first, and recalculating freshly parsed entries at the rate they
    were parsed at changes nothing. *)
Theorem recalculateDurations_depends_on_words_and_rate
        (content : string) (entries : list FlashcardEntry) (rate rate' : Q) :
  Forall2 sameCard entries (recalculateDurations entries rate) /\
  recalculateDurations (recalculateDurations entries rate') rate
    = recalculateDurations entries rate /\
  recalculateDurations (parseVocabularyFile content rate) rate
    = parseVocabularyFile content rate.
Proof.
  split; [apply recalculateFrom_cards|]. split.
  - apply recalculateFrom_twice.
  - apply recalculateFrom_parseLines.
Qed.

(** *** Where the entries come from *)




(** *** The total duration *)

Lemma getTotalDuration_cons (e : FlashcardEntry) (rest : list FlashcardEntry) :
  rest <> [] -> getTotalDuration (e :: rest) = getTotalDuration rest.
Proof.
  intros Hne. unfold getTotalDuration. cbn [List.rev].
  destruct (List.rev rest) as [|x xs] eqn:Hr; [|reflexivity].
  exfalso. apply Hne. apply (f_equal (@List.rev _)) in Hr.
  rewrite List.rev_involutive in Hr. exact Hr.
Qed.

Lemma getTotalDuration_chained t (entries : list FlashcardEntry) :
  chainedFrom t entries -> entries <> [] ->
  getTotalDuration entries = fold_left Qplus (List.map estimatedDuration entries) t.
Proof.
  revert t. induction entries as [|e rest IH]; intros t Hc Hne; [contradiction|].
  destruct Hc as [He Hrest]. destruct rest as [|e' rest'].
  - cbn. rewrite He. reflexivity.
  - rewrite getTotalDuration_cons by discriminate.
    change (fold_left Qplus (List.map estimatedDuration (e :: e' :: rest')) t)
      with (fold_left Qplus (List.map estimatedDuration (e' :: rest'))
                      (t + estimatedDuration e)).
    apply IH; [exact Hrest|discriminate].
Qed.

(** The total duration of parsed or recalculated entries is the sum of
    their estimated durations, added in the order of the list; it is 0 for
    no entry. *)
Theorem total_duration_is_the_sum_of_durations
        (content : string) (entries : list FlashcardEntry) (rate : Q) :
  getTotalDuration (parseVocabularyFile content rate) =
    fold_left Qplus (List.map estimatedDuration (parseVocabularyFile content rate)) 0 /\
  getTotalDuration (recalculateDurations entries rate) =
    fold_left Qplus (List.map estimatedDuration (recalculateDurations entries rate)) 0 /\
  getTotalDuration [] = 0.
Proof.
  split; [|split; [|reflexivity]].
  - destruct (parseVocabularyFile content rate) eqn:E; [reflexivity|]. rewrite <- E.
    apply getTotalDuration_chained; [apply parseLines_chained|]. rewrite E. discriminate.
  - destruct (recalculateDurations entries rate) eqn:E; [reflexivity|]. rewrite <- E.
    apply getTotalDuration_chained; [apply recalculateFrom_chained|]. rewrite E. discriminate.
Qed.

End DurationFacts.

(** ** renderer/utils/timeUtils.ts *)

Section TimeUtilsFacts.

Import TimeUtils.
Local Open Scope Q_scope.





(** *** The entry at a position in time *)

Lemma findEntryAtTime_snoc (front : list FlashcardEntry) (x : FlashcardEntry) (time : Q) :
  findEntryAtTime (front ++ [x]) time =
  if Qle_bool (cumulativeStartTime x) time then List.length front
  else findEntryAtTime front time.
Proof.
  unfold findEntryAtTime. rewrite rev_app_distr. cbn.
  rewrite length_rev. reflexivity.
Qed.

Lemma findEntryAtTime_spec (entries : list FlashcardEntry) (time : Q) :
  let i := findEntryAtTime entries time in
  (entries <> [] -> (i < List.length entries)%nat) /\
  (forall j e, (i < j)%nat -> entries !! j = Some e -> time < cumulativeStartTime e) /\
  ((exists e, e ∈ entries /\ cumulativeStartTime e <= time) ->
     exists e, entries !! i = Some e /\ cumulativeStartTime e <= time) /\
  ((forall e, e ∈ entries -> time < cumulativeStartTime e) -> i = 0%nat).
Proof.
  cbv zeta. induction entries as [|x front IH] using rev_ind.
  - split; [intros H; contradiction|]. split; [intros j e _ H; discriminate|].
    split; [intros (e & He & _); inversion He|reflexivity].
  - rewrite findEntryAtTime_snoc, length_app. cbn [List.length].
    destruct IH as (IH1 & IH2 & IH3 & IH4).
    destruct (Qle_bool (cumulativeStartTime x) time) eqn:Hx.
    + apply Qle_bool_iff in Hx. split; [lia|]. split.
      * intros j e Hj He. apply lookup_lt_Some in He. rewrite length_app in He.
        cbn in He. lia.
      * split.
        -- intros _. exists x. split; [|exact Hx].
           rewrite lookup_app_r by lia. rewrite Nat.sub_diag. reflexivity.
        -- intros H. specialize (H x). exfalso.
           assert (time < cumulativeStartTime x)
             by (apply H, elem_of_app; right; left).
           lra.
    + assert (Hlt : time < cumulativeStartTime x).
      { apply Qnot_le_lt. intros H. apply Qle_bool_iff in H. congruence. }
      split.
      * intros _. destruct front as [|y front']; [cbn; lia|].
        assert (findEntryAtTime (y :: front') time < List.length (y :: front'))%nat
          by (apply IH1; discriminate).
        lia.
      * split.
        -- intros j e Hj He.
           destruct (decide (j < List.length front)%nat) as [Hin|Hout].
           ++ rewrite lookup_app_l in He by exact Hin. exact (IH2 j e Hj He).
           ++ rewrite lookup_app_r in He by lia.
              destruct (j - List.length front)%nat; [|destruct n; discriminate].
              injection He as <-. exact Hlt.
        -- split.
           ++ intros (e & He & Hle). apply elem_of_app in He as [He|He].
              ** destruct IH3 as (e' & He' & Hle'); [exists e; split; assumption|].
                 exists e'. split; [|exact Hle'].
                 rewrite lookup_app_l by (eapply lookup_lt_Some; exact He').
                 exact He'.
              ** apply list_elem_of_singleton in He as ->. lra.
           ++ intros H. apply IH4. intros e He. apply H, elem_of_app. left. exact He.
Qed.

(** [findEntryAtTime] returns an index of the list (for a list that is
    not empty): that of the last entry that starts at or before the given
    time, every later entry starting after it; when every entry starts
    after the time it returns 0. *)
Theorem findEntryAtTime_is_the_last_entry_started
        (entries : list FlashcardEntry) (time : Q) :
  let i := findEntryAtTime entries time in
  (entries <> [] -> (i < List.length entries)%nat) /\
  (forall j e, (i < j)%nat -> entries !! j = Some e -> time < cumulativeStartTime e) /\
  ((exists e, e ∈ entries /\ cumulativeStartTime e <= time) ->
     exists e, entries !! i = Some e /\ cumulativeStartTime e <= time) /\
  ((forall e, e ∈ entries -> time < cumulativeStartTime e) -> i = 0%nat).
Proof. apply findEntryAtTime_spec. Qed.

Example findEntryAtTime_samples :
  findEntryAtTime sampleEntries 13 = 2%nat /\
  findEntryAtTime sampleEntries 100 = 4%nat /\
  findEntryAtTime sampleEntries (-1) = 0%nat /\
  findEntryAtTime [] 3 = 0%nat.
Proof. vm_compute. repeat split; reflexivity. Qed.

End TimeUtilsFacts.

(** ** Data URLs *)

Section DataUrlFacts.

Local Open Scope N_scope.

Lemma index_digit (i : N) : i < 64 -> Base64.index (Base64.digit i) Base64.alphabet 0 = Some i.
Proof.
  intros Hi.
  assert (Hall : forallb (fun j => match Base64.index (Base64.digit j) Base64.alphabet 0 with
                                   | Some k => N.eqb j k
                                   | None => false
                                   end)
                         (List.map N.of_nat (seq 0 64)) = true)
    by (vm_compute; reflexivity).
  rewrite forallb_forall in Hall. specialize (Hall i).
  destruct (Base64.index (Base64.digit i) Base64.alphabet 0) as [k|].
  - f_equal. symmetry. apply N.eqb_eq. apply Hall.
    apply in_map_iff. exists (N.to_nat i). split; [lia|]. apply in_seq. lia.
  - discriminate Hall.
    apply in_map_iff. exists (N.to_nat i). split; [lia|]. apply in_seq. lia.
Qed.

Lemma byte_to_N (a : Byte.byte) : Base64.byte (Byte.to_N a) = a.
Proof.
  unfold Base64.byte. pose proof (Byte.to_N_bounded a) as Hb.
  rewrite N.mod_small by lia. rewrite Byte.of_to_N. reflexivity.
Qed.

Ltac by_division := Z.to_euclidean_division_equations; lia.

Lemma sextets (a b c : N) :
  a < 256 -> b < 256 -> c < 256 ->
  a / 4 < 64 /\ a mod 4 * 16 + b / 16 < 64 /\ b mod 16 * 4 + c / 64 < 64 /\ c mod 64 < 64 /\
  a / 4 * 4 + (a mod 4 * 16 + b / 16) / 16 = a /\
  (a mod 4 * 16 + b / 16) mod 16 * 16 + (b mod 16 * 4 + c / 64) / 4 = b /\
  (b mod 16 * 4 + c / 64) mod 4 * 64 + c mod 64 = c.
Proof. intros Ha Hb Hc. repeat split; zify; by_division. Qed.

Lemma decode_encode (bs : Buffer) : Base64.decode (Base64.encode bs) = bs.
Proof.
  assert (H3 : forall n (l : Buffer), (List.length l <= n)%nat ->
                 Base64.decode (Base64.encode l) = l).
  { induction n as [|n IH]; intros l Hl; destruct l as [|a [|b [|c rest]]].
    1-4: try reflexivity; cbn in Hl; try lia.
    - reflexivity.
    - pose proof (Byte.to_N_bounded a) as Ha.
      destruct (sextets (Byte.to_N a) 0 0) as (H1 & H2 & _ & _ & E1 & _); try lia.
      cbn [Base64.encode Base64.decode].
      rewrite N.Div0.div_0_l, N.add_0_r in *.
      rewrite !index_digit by assumption. cbn.
      rewrite E1, byte_to_N. reflexivity.
    - pose proof (Byte.to_N_bounded a) as Ha. pose proof (Byte.to_N_bounded b) as Hb.
      destruct (sextets (Byte.to_N a) (Byte.to_N b) 0)
        as (H1 & H2 & H3 & _ & E1 & E2 & _); try lia.
      cbn [Base64.encode Base64.decode].
      rewrite N.Div0.div_0_l, N.add_0_r in *.
      rewrite !index_digit by assumption. cbn.
      rewrite E1, E2, !byte_to_N. reflexivity.
    - pose proof (Byte.to_N_bounded a) as Ha. pose proof (Byte.to_N_bounded b) as Hb.
      pose proof (Byte.to_N_bounded c) as Hc.
      destruct (sextets (Byte.to_N a) (Byte.to_N b) (Byte.to_N c))
        as (H1 & H2 & H3 & H4 & E1 & E2 & E3); try lia.
      cbn [Base64.encode Base64.decode].
      rewrite !index_digit by assumption.
      rewrite E1, E2, E3, !byte_to_N.
      rewrite IH by (cbn in Hl; lia). reflexivity. }
  apply (H3 (List.length bs)). lia.
Qed.

Lemma substring_all (s : string) : String.substring 0 (String.length s) s = s.
Proof. induction s as [|c s IH]; [reflexivity|]. cbn. rewrite IH. reflexivity. Qed.

Lemma stripPrefix_append (p s : string) : AudioExporter.stripPrefix p (p +:+ s) = s.
Proof.
  unfold AudioExporter.stripPrefix.
  assert (Hp : String.prefix p (p +:+ s) = true).
  { induction p as [|c p IH]; [destruct s; reflexivity|].
    change (String c p +:+ s) with (String c (p +:+ s)). cbn [String.prefix].
    destruct (ascii_dec c c); [exact IH|contradiction]. }
  rewrite Hp. clear Hp. induction p as [|c p IH].
  - change ("" +:+ s) with s. cbn [String.length]. rewrite Nat.sub_0_r.
    apply substring_all.
  - change (String c p +:+ s) with (String c (p +:+ s)). exact IH.
Qed.

Lemma stripPrefix_dataUrl (audio : Buffer) :
  AudioExporter.stripPrefix "data:audio/mpeg;base64," (TtsHandler.dataUrl audio)
  = Base64.encode audio.
Proof. apply stripPrefix_append. Qed.

(** The data URL that [synthesizeSpeech] returns carries the audio
    unchanged: [dataUrlToFile] writes exactly the bytes that were encoded,
    for every buffer, the empty one included. *)
Theorem dataUrlToFile_writes_the_synthesized_bytes
        (audio : Buffer) (name : string) (w : AudioExporter.World) :
  AudioExporter.tempDirExists w = true ->
  AudioExporter.dataUrlToFile (TtsHandler.dataUrl audio) (AudioExporter.InTemp name) w =
  (Ok tt,
   AudioExporter.set_tempFiles
     (<[name := AudioExporter.Raw audio]> (AudioExporter.tempFiles w)) w).
Proof.
  intros Hd. unfold AudioExporter.dataUrlToFile.
  rewrite stripPrefix_dataUrl, decode_encode.
  unfold AudioExporter.writeFile, mbind, M_bind, get, modify. rewrite Hd. reflexivity.
Qed.

Lemma dataUrlToFile_witness :
  AudioExporter.dataUrlToFile (TtsHandler.dataUrl sampleAudio)
    (AudioExporter.InTemp "temp-en-0.mp3")
    (AudioExporter.set_tempDirExists true exportWorld0) =
  (Ok tt,
   AudioExporter.set_tempFiles
     (<["temp-en-0.mp3" := AudioExporter.Raw sampleAudio]>
        (AudioExporter.tempFiles (AudioExporter.set_tempDirExists true exportWorld0)))
     (AudioExporter.set_tempDirExists true exportWorld0)).
Proof.
  apply (dataUrlToFile_writes_the_synthesized_bytes sampleAudio "temp-en-0.mp3"
           (AudioExporter.set_tempDirExists true exportWorld0)).
  reflexivity.
Defined.

End DataUrlFacts.

(** ** An export from a warm cache *)

Section CachedExport.

Import AudioExporter.









Lemma directories_made w :
  let w1 := (fun w => if tempDirExists w then w else set_tempDirExists true w)
              (if outputDirExists w then w else set_outputDirExists true w) in
  tempDirExists w1 = true /\ outputDirExists w1 = true /\ tts w1 = tts w /\
  outputFiles w1 = outputFiles w /\ tempFiles w1 = tempFiles w /\
  tempLocked w1 = tempLocked w /\ progress w1 = progress w.
Proof.
  destruct w as [t od td o f l p]. destruct od, td; cbn; repeat split; reflexivity.
Qed.




End CachedExport.

(** ** The progress reports of an export *)

Section ProgressFacts.

Import AudioExporter.

Lemma quiet_ret {A} (a : A) : quiet (mret a).
Proof. intros w. reflexivity. Qed.

Lemma quiet_throw {A} message : quiet (throw message : M World A).
Proof. intros w. reflexivity. Qed.

Lemma quiet_bind {A B} (m : M World A) (k : A -> M World B) :
  quiet m -> (forall a, quiet (k a)) -> quiet (m ≫= k).
Proof.
  intros Hm Hk w. unfold mbind, M_bind. specialize (Hm w).
  destruct (m w) as [[a|e] s]; cbn in *; [rewrite Hk|]; exact Hm.
Qed.

Lemma quiet_tryCatch {A} (m : M World A) (h : string -> M World A) :
  quiet m -> (forall e, quiet (h e)) -> quiet (tryCatch m h).
Proof.
  intros Hm Hh w. unfold tryCatch. specialize (Hm w).
  destruct (m w) as [[a|e] s]; cbn in *; [|rewrite Hh]; exact Hm.
Qed.

Lemma quiet_liftTts {A} (m : M TtsHandler.World A) : quiet (liftTts m).
Proof. intros w. unfold liftTts. destruct (m (tts w)); reflexivity. Qed.

Lemma quiet_existsSync p : quiet (existsSync p).
Proof. intros w. reflexivity. Qed.

Lemma quiet_writeFile p m : quiet (writeFile p m).
Proof.
  intros w. unfold writeFile, mbind, M_bind, get. cbn beta iota.
  destruct p; [reflexivity| |]; [destruct (tempDirExists w)|destruct (outputDirExists w)];
    reflexivity.
Qed.

Lemma quiet_unlinkSync p : quiet (unlinkSync p).
Proof.
  intros w. unfold unlinkSync, mbind, M_bind, get. cbn beta iota. destruct p.
  - apply quiet_liftTts.
  - destruct (decide _); [reflexivity|]. destruct (_ !! _); reflexivity.
  - destruct (_ !! _); reflexivity.
Qed.

Lemma quiet_getCachedAudioPath text language : quiet (getCachedAudioPath text language).
Proof. intros w. reflexivity. Qed.

Lemma quiet_runFfmpeg ffmpeg job : quiet (runFfmpeg ffmpeg job).
Proof.
  unfold runFfmpeg. destruct (ffmpeg job) as [|message leaves].
  - apply quiet_writeFile.
  - apply quiet_bind; [|intros; apply quiet_throw].
    destruct leaves; [|apply quiet_ret].
    apply quiet_tryCatch; [apply quiet_writeFile|intros; apply quiet_ret].
Qed.

Lemma quiet_generateSilence ffmpeg duration p : quiet (generateSilence ffmpeg duration p).
Proof.
  unfold generateSilence. cbv zeta.
  apply quiet_bind; [apply quiet_writeFile|intros _].
  apply quiet_tryCatch.
  - apply quiet_bind; [apply quiet_runFfmpeg|intros _].
    apply quiet_tryCatch; [apply quiet_unlinkSync|intros; apply quiet_ret].
  - intros e. apply quiet_bind; [|intros; apply quiet_throw].
    apply quiet_tryCatch; [apply quiet_unlinkSync|intros; apply quiet_ret].
Qed.

Lemma quiet_fragment gateway text language tempName temps :
  quiet (fragment gateway text language tempName temps).
Proof.
  unfold fragment. apply quiet_bind; [apply quiet_getCachedAudioPath|].
  intros [p|]; [apply quiet_ret|].
  apply quiet_bind; [apply quiet_liftTts|intros dataUrl]. cbv zeta.
  apply quiet_bind; [apply quiet_writeFile|intros; apply quiet_ret].
Qed.

Lemma quiet_cleanup p : quiet (cleanup p).
Proof.
  unfold cleanup. apply quiet_tryCatch; [|intros; apply quiet_ret].
  apply quiet_bind; [apply quiet_existsSync|].
  intros [|]; [apply quiet_unlinkSync|apply quiet_ret].
Qed.

Lemma quiet_forEach_cleanup ps : quiet (forEach cleanup ps).
Proof.
  induction ps as [|p ps IH]; cbn [forEach]; [apply quiet_ret|].
  apply quiet_bind; [apply quiet_cleanup|intros _; exact IH].
Qed.

(** The loop reports once for each entry it starts, in order. *)
Lemma entriesLoop_reports gateway s1 s2 s3 total :
  forall entries i audioPaths temps w,
  let '(r, w') := entriesLoop gateway entries i total s1 s2 s3 audioPaths temps w in
  exists k, (k <= List.length entries)%nat /\
    progress w' = (progress w ++ List.map (ttsProgress total) (seq i k))%list /\
    (forall a, r = Ok a -> k = List.length entries).
Proof.
  induction entries as [|e rest IH]; intros i audioPaths temps w.
  - exists 0%nat. cbn. rewrite app_nil_r. auto.
  - cbn [entriesLoop]. unfold mbind at 1, M_bind at 1, onProgress at 1, modify at 1.
    fold (ttsProgress total i).
    set (w0 := set_progress _ w).
    assert (Hw0 : progress w0 = (progress w ++ [ttsProgress total i])%list) by reflexivity.
    clearbody w0.
    unfold mbind at 1, M_bind at 1.
    pose proof (quiet_fragment gateway (englishWord e) en
                  ("temp-en-" ++ pretty i ++ ".mp3") temps w0) as Q1.
    destruct (fragment gateway (englishWord e) en _ temps w0) as [[[p1 t1]|e1] w1];
      cbn [snd] in Q1;
      [|exists 1%nat; cbn [List.length seq List.map]; rewrite Q1, Hw0;
        split; [lia|split; [reflexivity|intros a Ha; discriminate Ha]]].
    unfold mbind at 1, M_bind at 1.
    pose proof (quiet_fragment gateway (spanishWord e) es
                  ("temp-es-word-" ++ pretty i ++ ".mp3") t1 w1) as Q2.
    destruct (fragment gateway (spanishWord e) es _ t1 w1) as [[[p2 t2]|e2] w2];
      cbn [snd] in Q2;
      [|exists 1%nat; cbn [List.length seq List.map]; rewrite Q2, Q1, Hw0;
        split; [lia|split; [reflexivity|intros a Ha; discriminate Ha]]].
    unfold mbind at 1, M_bind at 1.
    pose proof (quiet_fragment gateway (spanishSentence e) es
                  ("temp-es-sentence-" ++ pretty i ++ ".mp3") t2 w2) as Q3.
    destruct (fragment gateway (spanishSentence e) es _ t2 w2) as [[[p3 t3]|e3] w3];
      cbn [snd] in Q3;
      [|exists 1%nat; cbn [List.length seq List.map]; rewrite Q3, Q2, Q1, Hw0;
        split; [lia|split; [reflexivity|intros a Ha; discriminate Ha]]].
    specialize (IH (S i) ((((audioPaths ++ [p1; s1]) ++ [p2; s2]) ++ [p3; s3])%list) t3 w3).
    destruct (entriesLoop gateway rest (S i) total s1 s2 s3 _ t3 w3) as [r w'].
    destruct IH as (k & Hk & Hp & Hok).
    exists (S k). split; [cbn; lia|]. split.
    + rewrite Hp, Q3, Q2, Q1, Hw0. cbn [seq List.map]. rewrite <- app_assoc. reflexivity.
    + intros a Ha. cbn [List.length]. f_equal. exact (Hok a Ha).
Qed.

Lemma ttsPercent_bounds total i :
  (i < total)%nat -> 0 <= ttsPercent total i <= 70.
Proof.
  intros Hi. unfold ttsPercent, ttsProgress, Num.ofNat. cbn [snd].
  assert (Ht : (0 < inject_Z (Z.of_nat total))%Q)
    by (change 0%Q with (inject_Z 0); rewrite <- Zlt_Qlt; lia).
  assert (H0 : (0 <= inject_Z (Z.of_nat i))%Q)
    by (change 0%Q with (inject_Z 0); rewrite <- Zle_Qle; lia).
  assert (Hle : (inject_Z (Z.of_nat i) <= inject_Z (Z.of_nat total))%Q)
    by (rewrite <- Zle_Qle; lia).
  split.
  - change 0 with (Qfloor (inject_Z 0)). apply Qfloor_resp_le.
    apply Qmult_le_0_compat; [|discriminate].
    apply Qle_shift_div_l; [exact Ht|]. rewrite Qmult_0_l. exact H0.
  - apply Z.le_trans with (Qfloor 70%Q); [|vm_compute; discriminate].
    apply Qfloor_resp_le.
    assert (H1 : (inject_Z (Z.of_nat i) / inject_Z (Z.of_nat total) <= 1)%Q)
      by (apply Qle_shift_div_r; [exact Ht|rewrite Qmult_1_l; exact Hle]).
    set (x := (_ / _)%Q) in *. clearbody x. lra.
Qed.

Lemma ttsPercent_monotone total i j :
  (i <= j < total)%nat -> ttsPercent total i <= ttsPercent total j.
Proof.
  intros [Hij Hj]. unfold ttsPercent, ttsProgress, Num.ofNat. cbn [snd].
  apply Qfloor_resp_le.
  assert (Ht : (0 < inject_Z (Z.of_nat total))%Q)
    by (change 0%Q with (inject_Z 0); rewrite <- Zlt_Qlt; lia).
  apply Qmult_le_compat_r; [|discriminate].
  apply Qmult_le_compat_r; [rewrite <- Zle_Qle; lia|].
  apply Qlt_le_weak, Qinv_lt_0_compat, Ht.
Qed.

Lemma ttsPercents_sorted total : forall k i,
  (i + k <= total)%nat ->
  StronglySorted Z.le (List.map (ttsPercent total) (seq i k)) /\
  Forall (fun p => 0 <= p <= 70) (List.map (ttsPercent total) (seq i k)).
Proof.
  induction k as [|k IH]; intros i Hk; cbn [seq List.map].
  - split; constructor.
  - destruct (IH (S i)) as [Hs Hb]; [lia|]. split.
    + constructor; [exact Hs|].
      apply Stdlib.Lists.List.Forall_forall. intros p Hp. apply in_map_iff in Hp as (j & <- & Hj).
      apply in_seq in Hj. apply ttsPercent_monotone. lia.
    + constructor; [apply ttsPercent_bounds; lia|exact Hb].
Qed.

Lemma sorted_app (l1 l2 : list Z) (c : Z) :
  StronglySorted Z.le l1 -> Forall (fun p => p <= c) l1 ->
  StronglySorted Z.le l2 -> Forall (fun p => c <= p) l2 ->
  StronglySorted Z.le (l1 ++ l2).
Proof.
  intros H1 B1 H2 B2. induction H1 as [|a l1 Hs IH Ha]; cbn; [exact H2|].
  apply Forall_cons in B1 as [Ba B1].
  constructor; [apply IH; exact B1|].
  apply Forall_app. split; [exact Ha|].
  eapply Forall_impl; [exact B2|]. cbn. intros p Hp. lia.
Qed.

(** The percentages of a run that reported the start, [k] entries and
    then [tail]. *)
Lemma reports_sorted total k (tail : list Z) :
  (k <= total)%nat ->
  StronglySorted Z.le tail -> Forall (fun p => 70 <= p <= 100) tail ->
  StronglySorted Z.le (0 :: List.map (ttsPercent total) (seq 0 k) ++ tail) /\
  Forall (fun p => 0 <= p <= 100) (0 :: List.map (ttsPercent total) (seq 0 k) ++ tail).
Proof.
  intros Hk Hs Hb. destruct (ttsPercents_sorted total k 0) as [Hs' Hb']; [lia|].
  assert (Hall : Forall (fun p => 0 <= p <= 100)
                   (List.map (ttsPercent total) (seq 0 k) ++ tail)).
  { apply Forall_app. split.
    - eapply Forall_impl; [exact Hb'|]. cbn. intros; lia.
    - eapply Forall_impl; [exact Hb|]. cbn. intros; lia. }
  split.
  - constructor.
    + apply (sorted_app _ _ 70); try assumption.
      * eapply Forall_impl; [exact Hb'|]. cbn. intros; lia.
      * eapply Forall_impl; [exact Hb|]. cbn. intros; lia.
    + eapply Forall_impl; [exact Hall|]. cbn. intros; lia.
  - constructor; [lia|exact Hall].
Qed.

Lemma last_app_nonempty (l t : list Z) (d : Z) :
  t <> [] -> List.last (l ++ t) d = List.last t d.
Proof.
  intros Ht. induction l as [|a l IH]; [reflexivity|].
  cbn [app]. destruct (l ++ t)%list eqn:E; [|exact IH].
  apply app_eq_nil in E as [_ E]. contradiction.
Qed.

Lemma reports_close (w w' : World) (total k : nat) (tail : list (string * Z))
      (result : ExportResult) :
  (k <= total)%nat ->
  progress w' =
    (progress w ++ [("Preparing silence tracks", 0)] ++
     List.map (ttsProgress total) (seq 0 k) ++ tail)%list ->
  StronglySorted Z.le (List.map snd tail) ->
  Forall (fun p => 70 <= p <= 100) (List.map snd tail) ->
  (success result = true -> List.last (List.map snd tail) 0 = 100) ->
  exists result0 reports,
    Ok result = Ok result0 /\
    progress w' = (progress w ++ reports)%list /\
    StronglySorted Z.le (List.map snd reports) /\
    Forall (fun p => 0 <= p <= 100) (List.map snd reports) /\
    (success result0 = true -> List.last (List.map snd reports) 0 = 100).
Proof.
  intros Hk Hp Hs Hb Hl. eexists. eexists. split; [reflexivity|].
  split; [exact Hp|].
  cbn [app List.map snd]. rewrite List.map_app, List.map_map.
  change (fun x => snd (ttsProgress total x)) with (ttsPercent total).
  destruct (reports_sorted total k (List.map snd tail) Hk Hs Hb) as [H1 H2].
  split; [exact H1|]. split; [exact H2|].
  intros Hr. specialize (Hl Hr).
  change (0 :: List.map (ttsPercent total) (seq 0 k) ++ List.map snd tail)%list
    with ((0 :: List.map (ttsPercent total) (seq 0 k)) ++ List.map snd tail)%list.
  rewrite last_app_nonempty; [exact Hl|].
  intros E. rewrite E in Hl. discriminate Hl.
Qed.

Ltac small_tail := cbn [List.map snd]; repeat first [lia | constructor].

(** [exportAudioFile] never rejects: it always returns a result.  Whether
    the export succeeds or fails, and wherever it fails, the percentages
    it reports lie between 0 and 100 and never decrease, and a successful
    export reports 100 last. *)
Theorem export_progress_never_goes_back
        (ffmpeg : Job -> Outcome) (gateway : TtsHandler.Request -> TtsHandler.Response)
        (entries : list FlashcardEntry) (filename : string) (speed : Q)
        (timestamp : string) (w : World) :
  let '(r, w') := exportAudioFile ffmpeg gateway entries filename speed timestamp w in
  exists result reports,
    r = Ok result /\
    progress w' = (progress w ++ reports)%list /\
    StronglySorted Z.le (List.map snd reports) /\
    Forall (fun p => 0 <= p <= 100) (List.map snd reports) /\
    (success result = true -> List.last (List.map snd reports) 0 = 100).
Proof.
  destruct (directories_made w) as (_ & _ & _ & _ & _ & _ & Hp).
  cbv zeta beta in Hp.
  unfold exportAudioFile, tryCatch.
  unfold mbind at 1, M_bind at 1, modify at 1.
  unfold mbind at 1, M_bind at 1, modify at 1.
  set (w1 := if tempDirExists _ then _ else _) in *. clearbody w1.
  unfold mbind at 1, M_bind at 1, onProgress at 1, modify at 1.
  set (w2 := set_progress _ w1).
  assert (H2 : progress w2 = (progress w ++ [("Preparing silence tracks", 0)])%list)
    by (cbn; rewrite Hp; reflexivity).
  clearbody w2.
  set (total := List.length entries).
  unfold mbind at 1, M_bind at 1.
  match goal with |- context [generateSilence ffmpeg ?d ?p w2] =>
    pose proof (quiet_generateSilence ffmpeg d p w2) as Q;
    destruct (generateSilence ffmpeg d p w2) as [[[]|e] w3]; cbn [snd] in Q
  end;
  [|apply (reports_close w w3 total 0 []);
    [lia|rewrite Q, H2; reflexivity|small_tail|small_tail|discriminate]].
  unfold mbind at 1, M_bind at 1.
  match goal with |- context [generateSilence ffmpeg ?d ?p w3] =>
    pose proof (quiet_generateSilence ffmpeg d p w3) as Q';
    destruct (generateSilence ffmpeg d p w3) as [[[]|e] w4]; cbn [snd] in Q'
  end;
  [|apply (reports_close w w4 total 0 []);
    [lia|rewrite Q', Q, H2; reflexivity|small_tail|small_tail|discriminate]].
  rewrite Q in Q'. clear Q w3.
  unfold mbind at 1, M_bind at 1.
  match goal with |- context [generateSilence ffmpeg ?d ?p w4] =>
    pose proof (quiet_generateSilence ffmpeg d p w4) as Q;
    destruct (generateSilence ffmpeg d p w4) as [[[]|e] w5]; cbn [snd] in Q
  end;
  [|apply (reports_close w w5 total 0 []);
    [lia|rewrite Q, Q', H2; reflexivity|small_tail|small_tail|discriminate]].
  rewrite Q', H2 in Q. clear Q' H2 w4 w2.
  unfold mbind at 1, M_bind at 1.
  match goal with |- context [entriesLoop gateway entries 0%nat total ?a ?b ?c [] [] w5] =>
    pose proof (entriesLoop_reports gateway a b c total entries 0%nat [] [] w5) as L;
    destruct (entriesLoop gateway entries 0%nat total a b c [] [] w5)
      as [[[audioPaths temps]|e] w6]
  end;
  destruct L as (k & Hk & HL & Hok); rewrite Q in HL;
  [|apply (reports_close w w6 total k []);
    [exact Hk|rewrite HL, app_nil_r, <- app_assoc; reflexivity
    |small_tail|small_tail|discriminate]].
  rewrite (Hok _ eq_refl) in HL. fold total in HL. clear Hok Hk k Q w5.
  unfold mbind at 1, M_bind at 1, onProgress at 1, modify at 1.
  set (w7 := set_progress _ w6).
  assert (H7 : progress w7 =
               (progress w ++ [("Preparing silence tracks", 0)] ++
                List.map (ttsProgress total) (seq 0 total) ++
                [("Assembling audio", 75)])%list)
    by (cbn [w7 progress set_progress]; rewrite HL, <- !app_assoc; reflexivity).
  clearbody w7. clear HL w6.
  unfold mbind at 1, M_bind at 1.
  match goal with |- context [concatenateAudio ffmpeg ?a ?b w7] =>
    pose proof (quiet_runFfmpeg ffmpeg (mkJob a b) w7) as Q;
    change (runFfmpeg ffmpeg (mkJob a b)) with (concatenateAudio ffmpeg a b) in Q;
    destruct (concatenateAudio ffmpeg a b w7) as [[[]|e] w8]; cbn [snd] in Q
  end;
  [|apply (reports_close w w8 total total [("Assembling audio", 75)]);
    [lia|rewrite Q, H7; reflexivity|small_tail|small_tail|discriminate]].
  rewrite H7 in Q. clear H7 w7.
  unfold mbind at 1, M_bind at 1, onProgress at 1, modify at 1.
  set (w9 := set_progress _ w8).
  assert (H9 : progress w9 =
               (progress w ++ [("Preparing silence tracks", 0)] ++
                List.map (ttsProgress total) (seq 0 total) ++
                [("Assembling audio", 75); ("Saving", 95)])%list)
    by (cbn [w9 progress set_progress]; rewrite Q, <- !app_assoc; reflexivity).
  clearbody w9. clear Q w8.
  unfold mbind at 1, M_bind at 1.
  pose proof (quiet_forEach_cleanup temps w9) as Q.
  destruct (forEach cleanup temps w9) as [[[]|e] w10]; cbn [snd] in Q;
  [|apply (reports_close w w10 total total [("Assembling audio", 75); ("Saving", 95)]);
    [lia|rewrite Q, H9; reflexivity|small_tail|small_tail|discriminate]].
  rewrite H9 in Q. clear H9 w9.
  unfold mbind at 1, M_bind at 1.
  match goal with |- context [forEach cleanup ?ps w10] =>
    pose proof (quiet_forEach_cleanup ps w10) as Q';
    destruct (forEach cleanup ps w10) as [[[]|e] w11]; cbn [snd] in Q'
  end;
  [|apply (reports_close w w11 total total [("Assembling audio", 75); ("Saving", 95)]);
    [lia|rewrite Q', Q; reflexivity|small_tail|small_tail|discriminate]].
  rewrite Q in Q'. clear Q w10.
  unfold mbind at 1, M_bind at 1, onProgress at 1, modify at 1. unfold mret, M_ret.
  apply (reports_close w _ total total
           [("Assembling audio", 75); ("Saving", 95); ("Complete", 100)]);
    [lia| |small_tail|small_tail|reflexivity].
  cbn [progress set_progress]. rewrite Q', <- !app_assoc. reflexivity.
Qed.

End ProgressFacts.

(** ** The lines the parser accepts *)

Section RegexFacts.

Import FileParser.

Lemma rev_taken (taken more : string) :
  list_ascii_of_string taken = (List.rev (list_ascii_of_string more) ++ [])%list ->
  Str.rev taken = more.
Proof.
  intros H. unfold Str.rev. rewrite H, app_nil_r, List.rev_involutive.
  apply string_of_list_ascii_of_string.
Qed.

Lemma greedy_sound {R} (k : cls) (cont : string -> string -> option R) :
  forall s atLeastOne taken r,
    greedy k cont atLeastOne taken s = Some r ->
    exists more s' taken',
      s = more ++ s' /\
      forallb (inCls k) (list_ascii_of_string more) = true /\
      list_ascii_of_string taken' =
        (List.rev (list_ascii_of_string more) ++ list_ascii_of_string taken)%list /\
      (atLeastOne = true -> more <> EmptyString) /\
      cont taken' s' = Some r.
Proof.
  induction s as [|c s IH]; intros a taken r H; cbn [greedy] in H.
  - destruct a; [discriminate|]. exists EmptyString, EmptyString, taken.
    repeat split; try reflexivity; [discriminate|exact H].
  - assert (Hstop : (if a then None else cont taken (String c s)) = Some r ->
                    exists more s' taken',
                      String c s = more ++ s' /\
                      forallb (inCls k) (list_ascii_of_string more) = true /\
                      list_ascii_of_string taken' =
                        (List.rev (list_ascii_of_string more) ++
                         list_ascii_of_string taken)%list /\
                      (a = true -> more <> EmptyString) /\
                      cont taken' s' = Some r).
    { intros Hs. destruct a; [discriminate|]. exists EmptyString, (String c s), taken.
      repeat split; try reflexivity; [discriminate|exact Hs]. }
    destruct (inCls k c) eqn:Hc; [|exact (Hstop H)].
    destruct (greedy k cont false (String c taken) s) as [r'|] eqn:G; [|exact (Hstop H)].
    injection H as ->.
    apply IH in G as (more & s' & taken' & -> & Hall & Ht & _ & Hcont).
    exists (String c more), s', taken'. split; [reflexivity|]. split.
    + cbn. rewrite Hc. exact Hall.
    + split; [|split; [discriminate|exact Hcont]].
      rewrite Ht. cbn. rewrite <- app_assoc. reflexivity.
Qed.

Lemma lazy_sound {R} (k : cls) (cont : string -> string -> option R) :
  forall s atLeastOne taken r,
    lazy k cont atLeastOne taken s = Some r ->
    exists more s' taken',
      s = more ++ s' /\
      forallb (inCls k) (list_ascii_of_string more) = true /\
      list_ascii_of_string taken' =
        (List.rev (list_ascii_of_string more) ++ list_ascii_of_string taken)%list /\
      (atLeastOne = true -> more <> EmptyString) /\
      cont taken' s' = Some r.
Proof.
  induction s as [|c s IH]; intros a taken r H; cbn [lazy] in H.
  - destruct a; [discriminate|]. destruct (cont taken EmptyString) as [r'|] eqn:C;
      [|discriminate].
    injection H as ->. exists EmptyString, EmptyString, taken.
    repeat split; try reflexivity; [discriminate|exact C].
  - destruct (if a then None else cont taken (String c s)) as [r'|] eqn:C.
    + injection H as ->. destruct a; [discriminate|].
      exists EmptyString, (String c s), taken.
      repeat split; try reflexivity; [discriminate|exact C].
    + destruct (inCls k c) eqn:Hc; [|discriminate].
      apply IH in H as (more & s' & taken' & -> & Hall & Ht & _ & Hcont).
      exists (String c more), s', taken'. split; [reflexivity|]. split.
      * cbn. rewrite Hc. exact Hall.
      * split; [|split; [discriminate|exact Hcont]].
        rewrite Ht. cbn. rewrite <- app_assoc. reflexivity.
Qed.

(** What the matcher returns is a decomposition of the string along the
    pattern. *)
Lemma matchSeq_sound : forall items s caps,
  matchSeq items s = Some caps -> shaped items s caps.
Proof.
  induction items as [|it rest IH]; intros s caps H; cbn [matchSeq] in H.
  - destruct s; [|discriminate]. injection H as <-. split; reflexivity.
  - cbn [shaped]. unfold accepts.
    destruct it as [k q g]. cbn [icls iquant igroup] in *. destruct q.
    + unfold once in H. destruct s as [|c s']; [discriminate|].
      destruct (inCls k c) eqn:Hc; [|discriminate].
      destruct (matchSeq rest s') as [caps'|] eqn:M; [|discriminate].
      injection H as <-. exists (String c EmptyString), s', caps'.
      split; [reflexivity|]. split; [cbn; rewrite Hc; auto|].
      split; [apply IH; exact M|reflexivity].
    + apply greedy_sound in H as (more & s' & taken' & -> & Hall & Ht & _ & Hc).
      destruct (matchSeq rest s') as [caps'|] eqn:M; [|discriminate].
      injection Hc as <-. exists more, s', caps'.
      split; [reflexivity|]. split; [auto|]. split; [apply IH; exact M|].
      rewrite (rev_taken _ _ Ht). reflexivity.
    + apply greedy_sound in H as (more & s' & taken' & -> & Hall & Ht & Hne & Hc).
      destruct (matchSeq rest s') as [caps'|] eqn:M; [|discriminate].
      injection Hc as <-. exists more, s', caps'.
      split; [reflexivity|]. split; [auto|]. split; [apply IH; exact M|].
      rewrite (rev_taken _ _ Ht). reflexivity.
    + apply lazy_sound in H as (more & s' & taken' & -> & Hall & Ht & Hne & Hc).
      destruct (matchSeq rest s') as [caps'|] eqn:M; [|discriminate].
      injection Hc as <-. exists more, s', caps'.
      split; [reflexivity|]. split; [auto|]. split; [apply IH; exact M|].
      rewrite (rev_taken _ _ Ht). reflexivity.
Qed.

Lemma append_empty_r (s : string) : s ++ EmptyString = s.
Proof.
  induction s as [|c s IH]; [reflexivity|].
  change (String c s ++ EmptyString) with (String c (s ++ EmptyString)).
  rewrite IH. reflexivity.
Qed.

Lemma single_char (c : ascii) (piece : string) :
  forallb (inCls (Lit c)) (list_ascii_of_string piece) = true ->
  String.length piece = 1%nat -> piece = String c EmptyString.
Proof.
  destruct piece as [|d [|e p]]; cbn; try discriminate.
  intros H _. rewrite andb_true_r in H. apply Ascii.eqb_eq in H. congruence.
Qed.

Lemma ENTRY_REGEX_shape (line : string) (caps : list string) :
  matchSeq ENTRY_REGEX line = Some caps ->
  exists m1 w1 w2 m2 w3 w4 m3,
    caps = [m1; m2; m3] /\
    line = m1 ++ w1 ++ "|" ++ w2 ++ m2 ++ w3 ++ "-" ++ w4 ++ m3 /\
    oneLine m1 /\ oneLine m2 /\ oneLine m3 /\
    blank w1 /\ blank w2 /\ blank w3 /\ blank w4.
Proof.
  intros H. apply matchSeq_sound in H. unfold ENTRY_REGEX in H. cbn [shaped] in H.
  destruct H as (m1 & s1 & c1 & -> & [A1 N1] & H & ->).
  destruct H as (w1 & s2 & c2 & -> & [B1 _] & H & ->).
  destruct H as (bar & s3 & c3 & -> & [L1 O1] & H & ->).
  destruct H as (w2 & s4 & c4 & -> & [B2 _] & H & ->).
  destruct H as (m2 & s5 & c5 & -> & [A2 N2] & H & ->).
  destruct H as (w3 & s6 & c6 & -> & [B3 _] & H & ->).
  destruct H as (dash & s7 & c7 & -> & [L2 O2] & H & ->).
  destruct H as (w4 & s8 & c8 & -> & [B4 _] & H & ->).
  destruct H as (m3 & s9 & c9 & -> & [A3 N3] & [-> ->] & ->).
  cbn [icls iquant igroup] in *.
  apply single_char in L1; [|exact O1]. apply single_char in L2; [|exact O2]. subst.
  exists m1, w1, w2, m2, w3, w4, m3.
  split; [reflexivity|]. split.
  - f_equal. f_equal. f_equal. f_equal. f_equal. f_equal. f_equal. f_equal.
    apply append_empty_r.
  - repeat split; assumption.
Qed.



Example blank_field_is_accepted :
  List.map spanishWord (parseVocabularyFile "a |  - b" 1) = [""].
Proof. vm_compute. reflexivity. Qed.

Lemma contains_append (c : ascii) (a b : string) :
  Str.contains c (a ++ b) = Str.contains c a || Str.contains c b.
Proof.
  induction a as [|d a IH]; [reflexivity|].
  change (String d a ++ b) with (String d (a ++ b)). cbn [Str.contains].
  rewrite IH, orb_assoc. reflexivity.
Qed.

Lemma contains_existsb (c : ascii) (s : string) :
  Str.contains c s = existsb (Ascii.eqb c) (list_ascii_of_string s).
Proof. induction s as [|d s IH]; cbn; [reflexivity|rewrite IH; reflexivity]. Qed.

Lemma contains_rev (c : ascii) (s : string) :
  Str.contains c (Str.rev s) = Str.contains c s.
Proof.
  rewrite !contains_existsb. unfold Str.rev. rewrite list_ascii_of_string_of_list_ascii.
  induction (list_ascii_of_string s) as [|d l IH]; [reflexivity|].
  cbn [List.rev existsb]. rewrite existsb_app, IH. cbn [existsb].
  rewrite orb_false_r, orb_comm. reflexivity.
Qed.

Lemma contains_trimStart (c : ascii) (s : string) :
  Str.contains c s = false -> Str.contains c (Str.trimStart s) = false.
Proof.
  induction s as [|d s IH]; [reflexivity|]. intros H. cbn [Str.trimStart].
  destruct (Str.isSpace d); [|exact H].
  apply IH. cbn [Str.contains] in H. apply orb_false_iff in H as [_ H]. exact H.
Qed.

Lemma contains_trim (c : ascii) (s : string) :
  Str.contains c s = false -> Str.contains c (Str.trim s) = false.
Proof.
  intros H. unfold Str.trim. rewrite contains_rev. apply contains_trimStart.
  rewrite contains_rev. apply contains_trimStart. exact H.
Qed.

(** A line without a bar, or without a dash, gives no entry: the loop goes
    on to the next line with the same running time, and the line still
    counts for the ids of the entries after it. *)
Theorem line_without_bar_or_dash_is_skipped
        (rate : Q) (l : string) (rest : list string) (i : nat) (t : Q) :
  Str.contains "|" l = false \/ Str.contains "-" l = false ->
  parseLines rate (l :: rest) i t = parseLines rate rest (S i) t.
Proof.
  intros H. cbn [parseLines].
  destruct (negb (Str.nonEmpty (Str.trim l))); [reflexivity|].
  destruct (matchSeq ENTRY_REGEX (Str.trim l)) as [caps|] eqn:M; [|reflexivity].
  exfalso. apply ENTRY_REGEX_shape in M
    as (m1 & w1 & w2 & m2 & w3 & w4 & m3 & _ & Hline & _).
  assert (Hbar : Str.contains "|" (Str.trim l) = true).
  { rewrite Hline, !contains_append. cbn. rewrite !orb_true_r. reflexivity. }
  assert (Hdash : Str.contains "-" (Str.trim l) = true).
  { rewrite Hline, !contains_append. cbn. rewrite !orb_true_r. reflexivity. }
  destruct H as [H|H]; apply (contains_trim _ _) in H; congruence.
Qed.

Lemma line_without_bar_witness :
  parseLines 1 ["# animals"; "cat | gato - El gato duerme."] 0 0 =
  parseLines 1 ["cat | gato - El gato duerme."] 1 0.
Proof.
  apply (line_without_bar_or_dash_is_skipped 1 "# animals"
           ["cat | gato - El gato duerme."] 0 0).
  left. reflexivity.
Defined.

End RegexFacts.

(** ** The clock display *)

Section FormatTimeFacts.

Import TimeUtils.

Lemma floor_of_minutes (n : Z) (d : positive) :
  Qfloor ((n # d) / 60) = n / Z.pos d / 60.
Proof.
  unfold Qdiv, Qmult, Qinv, Qfloor. cbn.
  rewrite Z.mul_1_r, Pos2Z.inj_mul. symmetry. apply Z.div_div; lia.
Qed.

Lemma floor_of_remainder (n : Z) (d : positive) :
  0 <= n -> Qfloor (remainder60 (n # d)) = (n / Z.pos d) mod 60.
Proof.
  intros Hn. unfold remainder60, Qminus, Qplus, Qopp, Qmult, inject_Z, Qfloor.
  cbn [Qnum Qden].
  change (Z.pos (1 * 1)) with 1. change (d * (1 * 1))%positive with (d * 1)%positive.
  rewrite Pos.mul_1_r, Z.mul_1_r.
  rewrite Z.quot_div_nonneg by lia.
  rewrite Z.div_add by lia.
  rewrite (Z.mul_comm 60 (Z.pos d)), <- Z.div_div by lia.
  rewrite (Z.mod_eq (n / Z.pos d) 60) by lia. lia.
Qed.

Lemma seconds_have_two_digits (z : Z) :
  0 <= z < 60 -> String.length (padStart2 (pretty z)) = 2%nat.
Proof.
  intros Hz.
  assert (Hall : forallb (fun k => Nat.eqb (String.length (padStart2 (pretty (Z.of_nat k)))) 2)
                         (seq 0 60) = true) by (vm_compute; reflexivity).
  rewrite forallb_forall in Hall.
  specialize (Hall (Z.to_nat z)). rewrite Z2Nat.id in Hall by lia.
  apply Nat.eqb_eq, Hall, in_seq. lia.
Qed.

(** For a time that is not negative, [formatTime] shows the whole minutes,
    a colon, and the whole seconds left over as exactly two digits. *)
Theorem formatTime_shows_minutes_and_two_digit_seconds (seconds : Q) :
  (0 <= seconds)%Q ->
  exists secs : string,
    formatTime seconds = pretty (Qfloor seconds / 60) ++ ":" ++ secs /\
    secs = padStart2 (pretty (Qfloor seconds mod 60)) /\
    String.length secs = 2%nat.
Proof.
  intros H. destruct seconds as [n d].
  assert (Hn : 0 <= n) by (unfold Qle in H; cbn in H; lia).
  eexists. split; [|split; [reflexivity|]].
  - unfold formatTime. rewrite floor_of_minutes, floor_of_remainder by exact Hn.
    reflexivity.
  - apply seconds_have_two_digits. apply Z.mod_pos_bound. lia.
Qed.

Lemma formatTime_witness :
  exists secs : string,
    formatTime (251 # 2) = pretty (Qfloor (251 # 2) / 60) ++ ":" ++ secs /\
    secs = padStart2 (pretty (Qfloor (251 # 2) mod 60)) /\
    String.length secs = 2%nat.
Proof.
  apply (formatTime_shows_minutes_and_two_digit_seconds (251 # 2)).
  unfold Qle. cbn. lia.
Defined.

Example formatTime_of_two_minutes_five : formatTime (251 # 2) = "2:05".
Proof. vm_compute. reflexivity. Qed.

End FormatTimeFacts.
